(** * Fuel-stop planner of the fuel-planner app (src/app.js)

    A shallow embedding of the route-planning core of [src/app.js]:
    [findStationsAlongRoute], [findStateBorderCrossings],
    [findBestStationInRange], [findClosestReachableStation],
    [findAnyReachableStation], [createStopFromStation] and the simulation
    loop of [calculateFuelStops].

    Numbers.  JavaScript numbers are modelled by exact rationals [Q]: the
    development covers the control flow and the arithmetic of the planner on
    finite values, not the rounding of IEEE doubles.  Divisions by [mpg]
    are only meaningful for [mpg <> 0] (JavaScript would produce [Infinity]
    or [NaN]); the theorems that depend on them assume [0 < mpg].

    Sets.  [usedStations] is a JavaScript [Set] of station ids, modelled by
    [gset string].

    Sorting.  [Array.prototype.sort] is modelled by a stable insertion sort
    driven by the sign of the comparator.  The comparators of the planner
    compare with tolerances and are not transitive; on such a comparator
    the language leaves the order to the engine.  The properties of the
    planner use only that the sorted array is a permutation of the array,
    and the order of the corridor filter is stated for every sort that
    keeps the contract of the language ([sort_contract]), of which
    [Array_sort] is one. *)

From Stdlib Require Import QArith Qround Lqa Lia ZArith Sorted.
From stdpp Require Import gmap strings list.
From Stdlib Require Import Ascii.

Open Scope Q_scope.

(** ** JavaScript numbers and [Math] *)

Module JS.

(** [a < b], [a <= b], [a > b], [a >= b] on finite numbers. *)
Definition ltb (a b : Q) : bool := negb (Qle_bool b a).
Definition leb (a b : Q) : bool := Qle_bool a b.
Definition gtb (a b : Q) : bool := ltb b a.
Definition geb (a b : Q) : bool := leb b a.

Definition Math_max (a b : Q) : Q := if leb a b then b else a.
Definition Math_min (a b : Q) : Q := if leb a b then a else b.
Definition Math_abs (a : Q) : Q := if ltb a 0 then - a else a.

(** [Math.round] rounds half up: [floor (x + 0.5)]. *)
Definition Math_round (x : Q) : Q := inject_Z (Qfloor (x + 0.5)).
Definition Math_ceil (x : Q) : Q := inject_Z (Qceiling x).

(** [parseFloat(x.toFixed(1))]: nearest tenth, ties away from zero. *)
Definition toFixed1 (x : Q) : Q :=
  if ltb x 0
  then - (inject_Z (Qfloor ((- x) * 10 + 0.5)) / 10)
  else inject_Z (Qfloor (x * 10 + 0.5)) / 10.

Section Sort.
Context {A : Type} (compareFn : A -> A -> Q).

(** [x] comes from the left of [l]; it stays in front of the elements it
    does not compare greater than. *)
Fixpoint sort_insert (x : A) (l : list A) : list A :=
  match l with
  | [] => [x]
  | y :: l' =>
      if gtb (compareFn x y) 0 then y :: sort_insert x l' else x :: l
  end.

(** [Array.prototype.sort(compareFn)].  The language fixes the result only
    for a consistent comparator; otherwise the order is the engine's own
    choice among the permutations of the array.  This is one sort that
    conforms, a stable insertion sort: where the comparator is not
    consistent, the order it computes for three elements or more need not
    be the order an engine computes, and nothing below relies on it. *)
Definition Array_sort (l : list A) : list A := foldr sort_insert [] l.

(** The comparator is consistent on the elements of [l]: comparing two of
    them the other way round flips the sign, and not comparing greater is
    transitive.  (This implies the conditions the language lists for a
    consistent comparator.) *)
Definition consistent (l : list A) : Prop :=
  (forall a b, a ∈ l -> b ∈ l -> (compareFn a b < 0 <-> 0 < compareFn b a))
  /\ (forall a b c, a ∈ l -> b ∈ l -> c ∈ l ->
        compareFn a b <= 0 -> compareFn b c <= 0 -> compareFn a c <= 0).

(** The array is sorted for the comparator: no element compares greater
    than a later one. *)
Definition sorted (l : list A) : Prop :=
  StronglySorted (fun a b => compareFn a b <= 0) l.
End Sort.

(** What the language promises of [Array.prototype.sort] on every engine:
    the result is a permutation of the array, and it is sorted when the
    comparator is consistent on its elements. *)
Definition sort_contract {A : Type}
    (sort : (A -> A -> Q) -> list A -> list A) : Prop :=
  forall (compareFn : A -> A -> Q) (l : list A),
    sort compareFn l ≡ₚ l
    /\ (consistent compareFn l -> sorted compareFn (sort compareFn l)).

(** [R] holds between every element of the list and its successor. *)
Inductive neighbours {A : Type} (R : A -> A -> Prop) : list A -> Prop :=
| neighbours_nil : neighbours R []
| neighbours_one x : neighbours R [x]
| neighbours_cons x y l :
    R x y -> neighbours R (y :: l) -> neighbours R (x :: y :: l).

(** [Array.prototype.includes] on an array of strings. *)
Definition includes (l : list string) (x : string) : bool :=
  bool_decide (x ∈ l).

End JS.

Import JS.

(** ** CONFIG *)

Module CONFIG.
Definition priceThresholds_excellent : Q := 2.95.
Definition priceThresholds_good : Q := 3.30.
Definition priceThresholds_fair : Q := 3.60.
Definition avgNationalPrice : Q := 3.75.
Definition fullTankStates : list string := ["CA"; "WA"]%string.
Definition destinationFuelTarget : Q := 0.75.
Definition minArrivalGallons : Q := 30.
End CONFIG.

(** ** Stations *)

(** The [price] property of a station object.  [setStations] fills it from
    [FuelPrices.getStationPrice], which hands back whatever the stored price
    exception or the price cache holds; [PriceUndefined] stands for a price
    that is [undefined] (or [NaN]: both are falsy and convert to [NaN]). *)
Inductive Price : Type :=
| PriceNum (p : Q)
| PriceNull
| PriceUndefined.

(** [ToNumber(price)]; [None] is [NaN]. *)
Definition price_toNumber (p : Price) : option Q :=
  match p with
  | PriceNum q => Some q
  | PriceNull => Some 0
  | PriceUndefined => None
  end.

(** [price <= c] and [price > c]: every comparison with [NaN] is false. *)
Definition price_leb (p : Price) (c : Q) : bool :=
  match price_toNumber p with Some q => leb q c | None => false end.
Definition price_gtb (p : Price) (c : Q) : bool :=
  match price_toNumber p with Some q => gtb q c | None => false end.

(** [price || d]: [0], [null], [undefined] and [NaN] are falsy. *)
Definition price_or (p : Price) (d : Q) : Q :=
  match p with
  | PriceNum q => if Qeq_bool q 0 then d else q
  | _ => d
  end.

(** A station of [state.stations]. *)
Record StationData : Type := mkStationData {
  id : string;
  state : string;
  lat : Q;
  lng : Q;
  price : Price
}.

(** A station annotated by [findStationsAlongRoute]
    ([{...station, distanceFromStart, distanceFromRoute, routeIndex}]). *)
Record Station : Type := mkStation {
  data :> StationData;
  distanceFromStart : Q;
  distanceFromRoute : Q;
  routeIndex : nat
}.

(** ** findStationsAlongRoute *)

Record RouteData : Type := mkRouteData {
  coordinates : list (Q * Q);
  distance : Q;
  duration : Q
}.

Section Corridor.

(** Great-circle distance; the trigonometry of [haversineDistance] is
  outside the model, any function of the four coordinates will do. *)
Variable haversineDistance : Q -> Q -> Q -> Q -> Q.

Definition routeBuffer : Q := 3.

(** [dist < minDistance], where [minDistance] starts at [Infinity]
  ([None]). *)
Definition lt_minDistance (dist : Q) (minDistance : option Q) : bool :=
match minDistance with
| None => true
| Some m => ltb dist m
end.

(** The inner [for] loop over [routeData.coordinates], started at index
  [i] with the running [minDistance] and [closestRouteIndex]. *)
Fixpoint closest_scan (station : StationData) (coords : list (Q * Q))
  (i : nat) (minDistance : option Q) (closestRouteIndex : nat)
  : option Q * nat :=
match coords with
| [] => (minDistance, closestRouteIndex)
| coord :: rest =>
    let dist :=
      haversineDistance (lat station) (lng station) (fst coord) (snd coord) in
    if lt_minDistance dist minDistance
    then closest_scan station rest (S i) (Some dist) i
    else closest_scan station rest (S i) minDistance closestRouteIndex
end.

(** The body of [dataset.forEach]: [Some] when the station is pushed.  On
  a polyline of exactly one point the source divides 0 by 0 and
  [distanceFromStart] is [NaN], which the rationals do not render (the
  quotient is 0 here): the model covers the polylines with no point or with
  two points or more, and the properties that read [distanceFromStart] of
  an annotated station say so. *)
Definition annotate (routeData : RouteData) (station : StationData)
  : option Station :=
match closest_scan station (coordinates routeData) 0 None 0 with
| (Some minDistance, closestRouteIndex) =>
    if leb minDistance routeBuffer then
      let routeProgress :=
        inject_Z (Z.of_nat closestRouteIndex)
        / (inject_Z (Z.of_nat (length (coordinates routeData))) - 1) in
      Some {| data := station;
              distanceFromStart := routeProgress * distance routeData;
              distanceFromRoute := minDistance;
              routeIndex := closestRouteIndex |}
    else None
| (None, _) => None
end.

Definition corridor_compare (a b : Station) : Q :=
let distDiff := distanceFromStart a - distanceFromStart b in
if ltb (Math_abs distDiff) 5
then distanceFromRoute a - distanceFromRoute b
else distDiff.

Definition findStationsAlongRoute (dataset : list StationData)
  (routeData : RouteData) : list Station :=
match dataset with
| [] => []
| _ => Array_sort corridor_compare (omap (annotate routeData) dataset)
end.

(** The same function over any [sort] that keeps the language's contract
    ([sort_contract]); [findStationsAlongRoute] is its instance at
    [Array_sort]. *)
Definition findStationsAlongRoute_with
    (sort : (Station -> Station -> Q) -> list Station -> list Station)
    (dataset : list StationData) (routeData : RouteData) : list Station :=
  match dataset with
  | [] => []
  | _ => sort corridor_compare (omap (annotate routeData) dataset)
  end.

(** The nearest route point of a station: [m] is the smallest distance from
    the station to a point of the polyline and [i] the first index where it
    is reached. *)
Definition nearest_point (station : StationData) (coords : list (Q * Q))
    (i : nat) (m : Q) : Prop :=
  (exists c, coords !! i = Some c
             /\ m = haversineDistance (lat station) (lng station) (fst c) (snd c))
  /\ (forall j c, coords !! j = Some c ->
                  m <= haversineDistance (lat station) (lng station) (fst c) (snd c))
  /\ (forall j c, (j < i)%nat -> coords !! j = Some c ->
                  m < haversineDistance (lat station) (lng station) (fst c) (snd c)).

(** The annotated station built from the nearest point. *)
Definition annotated (routeData : RouteData) (station : StationData)
    (i : nat) (m : Q) : Station :=
  {| data := station;
     distanceFromStart :=
       inject_Z (Z.of_nat i)
       / (inject_Z (Z.of_nat (length (coordinates routeData))) - 1)
       * distance routeData;
     distanceFromRoute := m;
     routeIndex := i |}.

(** The order the comparator puts two stations in: less than 5 apart along
    the route, the one nearer the route first; otherwise the one nearer the
    start first. *)
Definition corridor_order (a b : Station) : Prop :=
  (Math_abs (distanceFromStart a - distanceFromStart b) < 5
   /\ distanceFromRoute a <= distanceFromRoute b)
  \/ distanceFromStart a + 5 <= distanceFromStart b.

(** Two stations are 5 units or more apart along the route. *)
Definition far_apart (a b : Station) : Prop :=
  5 <= Math_abs (distanceFromStart a - distanceFromStart b).

End Corridor.

(** ** findStateBorderCrossings *)

Record Crossing : Type := mkCrossing {
  enteringState : string;
  borderDistance : Q;
  firstStationInState : Station;
  lastStationBeforeBorder : option Station
}.

(** The [for] loop from index [i]: [before] holds the stations of indices
    [i-1 .. 0] (nearest first), [rest] those from [i] on. *)
Fixpoint crossings_loop (highPriceStates : list string)
    (before : list Station) (previousState : string) (rest : list Station)
    : list Crossing :=
  match rest with
  | [] => []
  | station :: rest' =>
      let currentState := state station in
      let found :=
        if includes highPriceStates currentState
           && negb (includes highPriceStates previousState)
        then
          [ {| enteringState := currentState;
               borderDistance := distanceFromStart station;
               firstStationInState := station;
               lastStationBeforeBorder :=
                 List.find (fun s : Station => negb (includes highPriceStates (state s)))
                           before |} ]
        else [] in
      found ++ crossings_loop highPriceStates (station :: before) currentState rest'
  end.

Definition findStateBorderCrossings (stationsAlongRoute : list Station)
    (highPriceStates : list string) : list Crossing :=
  match stationsAlongRoute with
  | [] | [_] => []
  | first :: rest => crossings_loop highPriceStates [first] (state first) rest
  end.

(** The station list is ascending along the route: no station lies before
    an earlier one of the list. *)
Definition ascending (stations : list Station) : Prop :=
  StronglySorted
    (fun a b : Station => distanceFromStart a <= distanceFromStart b) stations.

(** ** Station selection policy *)

(** The price categories of [CONFIG.priceThresholds]. *)
Inductive PriceCategory : Type := excellent | good | fair | high.

(** [a.price - b.price]; [None] is [NaN]. *)
Definition price_diff (a b : Price) : option Q :=
  match price_toNumber a, price_toNumber b with
  | Some x, Some y => Some (x - y)
  | _, _ => None
  end.

(** The comparator of [findBestStationInRange].  A [NaN] price difference
    fails the first test and falls through to the detour comparison;
    [distanceFromRoute || 0] is the identity on numbers. *)
Definition best_compare (a b : Station) : Q :=
  match price_diff (price a) (price b) with
  | Some d =>
      if geb (Math_abs d) 0.05 then d
      else
        let routeDistDiff := distanceFromRoute a - distanceFromRoute b in
        if gtb (Math_abs routeDistDiff) 0.5 then routeDistDiff
        else distanceFromStart b - distanceFromStart a
  | None =>
      let routeDistDiff := distanceFromRoute a - distanceFromRoute b in
      if gtb (Math_abs routeDistDiff) 0.5 then routeDistDiff
      else distanceFromStart b - distanceFromStart a
  end.

Definition in_range (minDistance maxDistance : Q) (usedStations : gset string)
    (station : Station) : bool :=
  if bool_decide (id station ∈ usedStations) then false
  else if ltb (distanceFromStart station) minDistance then false
  else if gtb (distanceFromStart station) maxDistance then false
  else true.

Definition is_excellent (s : Station) : bool :=
  price_leb (price s) CONFIG.priceThresholds_excellent.
Definition is_good (s : Station) : bool :=
  price_gtb (price s) CONFIG.priceThresholds_excellent
  && price_leb (price s) CONFIG.priceThresholds_good.
Definition is_fair (s : Station) : bool :=
  price_gtb (price s) CONFIG.priceThresholds_good
  && price_leb (price s) CONFIG.priceThresholds_fair.
Definition is_high (s : Station) : bool :=
  price_gtb (price s) CONFIG.priceThresholds_fair.

(** The tier the four filters put a station in; a station whose price
    converts to [NaN] passes none of them. *)
Definition tier (s : Station) : option PriceCategory :=
  if is_excellent s then Some excellent
  else if is_good s then Some good
  else if is_fair s then Some fair
  else if is_high s then Some high
  else None.


(** The [candidates] array before it is sorted. *)
Definition best_candidates (reachableStations : list Station) : list Station :=
  let excellent := List.filter is_excellent reachableStations in
  let good := List.filter is_good reachableStations in
  let fair := List.filter is_fair reachableStations in
  let high := List.filter is_high reachableStations in
  match excellent, good, fair with
  | _ :: _, _, _ => excellent
  | [], _ :: _, _ => good
  | [], [], _ :: _ => fair
  | [], [], [] => high
  end.

Definition findBestStationInRange (minDistance maxDistance : Q)
    (stations : list Station) (usedStations : gset string) : option Station :=
  let reachableStations :=
    List.filter (in_range minDistance maxDistance usedStations) stations in
  match reachableStations with
  | [] => None
  | _ => head (Array_sort best_compare (best_candidates reachableStations))
  end.

(** The candidate loop shared by [findClosestReachableStation] and
    [findAnyReachableStation]: each candidate is the station together with
    its [distanceFromCurrent]. *)
Definition reachable_candidates (currentPosition maxRange : Q)
    (stations : list Station) (usedStations : gset string)
    : list (Station * Q) :=
  flat_map
    (fun station : Station =>
       if bool_decide (id station ∈ usedStations) then []
       else if leb (distanceFromStart station) currentPosition then []
       else
         let distance := distanceFromStart station - currentPosition in
         if leb distance maxRange && gtb distance 0
         then [(station, distance)] else [])
    stations.

Definition closest_compare (a b : Station * Q) : Q :=
  let distDiff := snd a - snd b in
  if gtb (Math_abs distDiff) 10 then distDiff
  else distanceFromRoute (fst a) - distanceFromRoute (fst b).

Definition findClosestReachableStation (currentPosition maxRange : Q)
    (stations : list Station) (usedStations : gset string) : option Station :=
  fst <$> head (Array_sort closest_compare
                  (reachable_candidates currentPosition maxRange stations usedStations)).

Definition any_compare (a b : Station * Q) : Q :=
  let priceDiff := price_or (price (fst a)) 4 - price_or (price (fst b)) 4 in
  if gtb (Math_abs priceDiff) 0.05 then priceDiff
  else
    let routeDistDiff := distanceFromRoute (fst a) - distanceFromRoute (fst b) in
    if gtb (Math_abs routeDistDiff) 0.5 then routeDistDiff
    else snd b - snd a.

Definition findAnyReachableStation (currentPosition maxRange : Q)
    (stations : list Station) (usedStations : gset string) : option Station :=
  fst <$> head (Array_sort any_compare
                  (reachable_candidates currentPosition maxRange stations usedStations)).

(** ** createStopFromStation *)

(** The stop record.  The descriptive properties copied from the station
    (chain, store number, exit, city, state, address, coordinates) are kept
    together as [stop_station]; [time] and [isFull], which read the route
    duration and the page, are left out. *)
Record Stop : Type := mkStop {
  number : nat;
  stop_station : Station;
  stop_price : Q;
  priceCategory : PriceCategory;
  stop_distance : Q;
  gallonsToAdd : Q;
  fuelRemaining : Q;
  fillAmount : Q;
  savings : Q
}.

Definition createStopFromStation (stopNumber : nat) (station : Station)
    (gallonsToAdd fillAmount fuelArriving : Q) : Stop :=
  let price := price_or (price station) 3.00 in
  let priceCategory :=
    if leb price CONFIG.priceThresholds_excellent then excellent
    else if leb price CONFIG.priceThresholds_good then good
    else if leb price CONFIG.priceThresholds_fair then fair
    else high in
  let savings :=
    Math_max 0 (Math_round ((CONFIG.avgNationalPrice - price) * gallonsToAdd)) in
  {| number := stopNumber;
     stop_station := station;
     stop_price := price;
     priceCategory := priceCategory;
     stop_distance := Math_round (distanceFromStart station);
     gallonsToAdd := gallonsToAdd;
     fuelRemaining := toFixed1 fuelArriving;
     fillAmount := Math_round fillAmount;
     savings := savings |}.

(** The station ids, the positions along the route and the sequence numbers
    of a list of stops. *)
Definition stop_ids (l : list Stop) : list string :=
  map (fun stop => id (stop_station stop)) l.
Definition stop_positions (l : list Stop) : list Q :=
  map (fun stop => distanceFromStart (stop_station stop)) l.
Definition stop_numbers (l : list Stop) : list nat := map number l.

(** ** calculateFuelStops *)

(** The mutable locals of [calculateFuelStops]. *)
Record PlanState : Type := mkPlanState {
  stops : list Stop;
  currentFuel : Q;
  currentPosition : Q;
  usedStations : gset string
}.

(** The way one pass through the body of the [while] loop ends. *)
Inductive Branch : Type :=
| BorderStop          (* priority stop committed, [continue] *)
| DestinationReached  (* enough fuel for the target, [break] *)
| NearMissStop        (* one last stop committed, [break] *)
| NearMissNoStop      (* near miss, nothing committed, [break] *)
| ExpandedStop        (* stop from the expanded search, [continue] *)
| NoReachableStation  (* no station at all, [break] *)
| ReserveDiscard      (* station marked used, [continue] *)
| EmergencyStop       (* stop from findClosestReachableStation, [continue] *)
| EmergencyHalt       (* findClosestReachableStation found nothing, [break] *)
| StandardStop.       (* full fill, end of the body *)

Definition exits (b : Branch) : bool :=
  match b with
  | DestinationReached | NearMissStop | NearMissNoStop
  | NoReachableStation | EmergencyHalt => true
  | BorderStop | ExpandedStop | ReserveDiscard | EmergencyStop
  | StandardStop => false
  end.

(** The passes that call [findClosestReachableStation]. *)
Definition calls_findClosestReachableStation (b : Branch) : bool :=
  match b with
  | EmergencyStop | EmergencyHalt => true
  | _ => false
  end.

(** The passes that push a stop. *)
Definition commits (b : Branch) : bool :=
  match b with
  | BorderStop | NearMissStop | ExpandedStop | EmergencyStop
  | StandardStop => true
  | _ => false
  end.

(** What the function returns. *)
Record PlanResult : Type := mkPlanResult {
  result_stops : list Stop;
  finalFuel : Q
}.

Section Planner.

(** [routeData], the value of [findStationsAlongRoute(routeData)], and the
    vehicle parameters.  The corridor filter reads the global station
    table; the planner is taken over its result. *)
Variable routeData : RouteData.
Variable stationsAlongRoute : list Station.
Variables tankSize mpg : Q.

Definition totalDistance : Q := distance routeData.
Definition targetFuelAtDestination : Q :=
  tankSize * CONFIG.destinationFuelTarget.
Definition highPriceStates : list string := CONFIG.fullTankStates.
Definition stateBorderCrossings : list Crossing :=
  findStateBorderCrossings stationsAlongRoute highPriceStates.

Definition usableRange (st : PlanState) : Q :=
  let usableRangeGallons :=
    Math_max 0 (currentFuel st - CONFIG.minArrivalGallons) in
  usableRangeGallons * mpg.

(** The predicate of [stateBorderCrossings.find]. *)
Definition border_pending (st : PlanState) (crossing : Crossing) : bool :=
  gtb (borderDistance crossing) (currentPosition st)
  && match lastStationBeforeBorder crossing with
     | Some s => negb (bool_decide (id s ∈ usedStations st))
     | None => false
     end.

Definition nextBorderCrossing (st : PlanState) : option Crossing :=
  List.find (border_pending st) stateBorderCrossings.

(** [stops.push(createStopFromStation(stops.length + 1, ...))] followed by
    [usedStations.add(station.id)]. *)
Definition push_stop (st : PlanState) (station : Station)
    (gallons fillTo fuelArriving : Q) : PlanState :=
  {| stops := stops st ++
              [createStopFromStation (S (length (stops st))) station
                 gallons fillTo fuelArriving];
     currentFuel := currentFuel st;
     currentPosition := currentPosition st;
     usedStations := {[ id station ]} ∪ usedStations st |}.

(** [currentFuel = fuel; currentPosition = station.distanceFromStart]. *)
Definition advance (st : PlanState) (fuel : Q) (station : Station)
    : PlanState :=
  {| stops := stops st;
     currentFuel := fuel;
     currentPosition := distanceFromStart station;
     usedStations := usedStations st |}.

(** [usedStations.add(station.id)] alone. *)
Definition mark_used (st : PlanState) (station : Station) : PlanState :=
  {| stops := stops st;
     currentFuel := currentFuel st;
     currentPosition := currentPosition st;
     usedStations := {[ id station ]} ∪ usedStations st |}.

(** PRIORITY 1: [Some] when the block commits and continues. *)
Definition border_priority (st : PlanState) : option PlanState :=
  match nextBorderCrossing st with
  | Some crossing =>
      match lastStationBeforeBorder crossing with
      | Some lastStation =>
          let distanceToLastStation :=
            distanceFromStart lastStation - currentPosition st in
          if gtb distanceToLastStation 0
             && leb distanceToLastStation (usableRange st)
          then
            let fuelUsedToStation := distanceToLastStation / mpg in
            let fuelAtStation := currentFuel st - fuelUsedToStation in
            let gallons :=
              Math_max 0 (Math_round (tankSize - fuelAtStation)) in
            if gtb gallons 0
            then Some (advance
                         (push_stop st lastStation gallons tankSize fuelAtStation)
                         tankSize lastStation)
            else None
          else None
      | None => None
      end
  | None => None
  end.

(** The near-miss block, entered with [0 <= fuelAtDestination < target];
    it always ends in [break]. *)
Definition near_miss (st : PlanState) : Branch * PlanState :=
  let finalSearchMax :=
    Math_min (currentPosition st + usableRange st)
             (currentPosition st + Math_max (usableRange st * 0.85) 50) in
  match findBestStationInRange (currentPosition st) finalSearchMax
          stationsAlongRoute (usedStations st) with
  | Some stationInRange =>
      let distanceToStation :=
        distanceFromStart stationInRange - currentPosition st in
      let fuelUsed := distanceToStation / mpg in
      let fuelAtStation := currentFuel st - fuelUsed in
      let willEnterHighPriceState :=
        existsb (fun crossing =>
                   gtb (borderDistance crossing)
                       (distanceFromStart stationInRange))
                stateBorderCrossings in
      let fillTo :=
        if willEnterHighPriceState
           || includes highPriceStates (state stationInRange)
        then tankSize
        else
          let distanceAfterStation :=
            totalDistance - distanceFromStart stationInRange in
          let fuelNeeded :=
            distanceAfterStation / mpg + targetFuelAtDestination in
          Math_min tankSize (Math_ceil fuelNeeded + 5) in
      let gallons := Math_max 0 (Math_round (fillTo - fuelAtStation)) in
      if gtb gallons 0
      then (NearMissStop, push_stop st stationInRange gallons fillTo fuelAtStation)
      else (NearMissNoStop, st)
  | None => (NearMissNoStop, st)
  end.

(** The block under [if (!nextStation)]. *)
Definition expanded_search (st : PlanState) : Branch * PlanState :=
  match findAnyReachableStation (currentPosition st)
          (currentFuel st * mpg * 0.95)
          stationsAlongRoute (usedStations st) with
  | Some expandedStation =>
      let distToStation :=
        distanceFromStart expandedStation - currentPosition st in
      let fuelAtStation := currentFuel st - distToStation / mpg in
      (ExpandedStop,
       advance
         (push_stop st expandedStation
            (Math_round (tankSize - Math_max 0 fuelAtStation))
            tankSize
            (Math_max 0 fuelAtStation))
         tankSize expandedStation)
  | None => (NoReachableStation, st)
  end.

(** The rest of the body once [nextStation] is found: the reserve guard,
    the second guard with the emergency search behind it, and the full
    fill. *)
Definition standard_stop (st : PlanState) (nextStation : Station)
    : Branch * PlanState :=
  let currentRange := currentFuel st * mpg in
  let distanceToStation :=
    distanceFromStart nextStation - currentPosition st in
  let fuelUsedToStation := distanceToStation / mpg in
  let fuelAtStation := currentFuel st - fuelUsedToStation in
  if ltb fuelAtStation CONFIG.minArrivalGallons
  then (ReserveDiscard, mark_used st nextStation)
  else
    if ltb fuelAtStation CONFIG.minArrivalGallons
    then
      match findClosestReachableStation (currentPosition st)
              (currentRange * 0.95) stationsAlongRoute (usedStations st) with
      | Some emergencyStation =>
          let distToEmergency :=
            distanceFromStart emergencyStation - currentPosition st in
          let fuelAtEmergency := currentFuel st - distToEmergency / mpg in
          (EmergencyStop,
           advance
             (push_stop st emergencyStation
                (Math_round (tankSize - fuelAtEmergency))
                tankSize fuelAtEmergency)
             tankSize emergencyStation)
      | None => (EmergencyHalt, st)
      end
    else
      let fillTo := tankSize in
      let gallons := Math_max 0 (Math_round (fillTo - fuelAtStation)) in
      (StandardStop,
       advance (push_stop st nextStation gallons fillTo fuelAtStation)
               fillTo nextStation).

(** One pass through the body of the [while] loop. *)
Definition loop_body (st : PlanState) : Branch * PlanState :=
  let remainingDistance := totalDistance - currentPosition st in
  match border_priority st with
  | Some st' => (BorderStop, st')
  | None =>
      let fuelAtDestination := currentFuel st - remainingDistance / mpg in
      if geb fuelAtDestination targetFuelAtDestination
      then (DestinationReached, st)
      else if geb fuelAtDestination 0
              && ltb fuelAtDestination targetFuelAtDestination
      then near_miss st
      else
        let safeRange := usableRange st * 0.90 in
        let maxReachableDistance :=
          currentPosition st + Math_max safeRange 10 in
        match findBestStationInRange (currentPosition st + 20)
                maxReachableDistance stationsAlongRoute (usedStations st) with
        | None => expanded_search st
        | Some nextStation => standard_stop st nextStation
        end
  end.

(** [while (currentPosition < totalDistance)], with a bound on the number
    of passes; the list is the sequence of passes made. *)
Fixpoint while_loop (passes : nat) (st : PlanState)
    : option (PlanState * list Branch) :=
  if ltb (currentPosition st) totalDistance then
    match passes with
    | O => None
    | S passes' =>
        let (b, st') := loop_body st in
        if exits b then Some (st', [b])
        else
          match while_loop passes' st' with
          | Some (final, trace) => Some (final, b :: trace)
          | None => None
          end
    end
  else Some (st, []).

Definition initial_state (currentGallons : Q) : PlanState :=
  {| stops := [];
     currentFuel := currentGallons;
     currentPosition := 0;
     usedStations := ∅ |}.

(** The statements after the loop. *)
Definition finish (st : PlanState) : PlanResult :=
  let calculatedFinalFuel :=
    currentFuel st - (totalDistance - currentPosition st) / mpg in
  {| result_stops := stops st;
     finalFuel := Math_max targetFuelAtDestination calculatedFinalFuel |}.

(** The loop run from the initial state.  One pass more than there are
    stations is always enough (see [while_loop_total]). *)
Definition simulate (currentGallons : Q) : option (PlanState * list Branch) :=
  while_loop (S (length stationsAlongRoute)) (initial_state currentGallons).

Definition calculateFuelStops (currentGallons : Q) : option PlanResult :=
  (fun r : PlanState * list Branch => finish (fst r)) <$> simulate currentGallons.

(** *** The passes as a relation

    The quantities the body computes from the state, and the passes of
    the loop written as a relation over them; [loop_body_pass] shows that
    every pass of [loop_body] is one of these. *)

Definition fuelAtDestination (st : PlanState) : Q :=
  currentFuel st - (totalDistance - currentPosition st) / mpg.

(** Fuel left on arrival at [s] from the current position. *)
Definition arrival_fuel (st : PlanState) (s : Station) : Q :=
  currentFuel st - (distanceFromStart s - currentPosition st) / mpg.

Definition finalSearchMax (st : PlanState) : Q :=
  Math_min (currentPosition st + usableRange st)
           (currentPosition st + Math_max (usableRange st * 0.85) 50).

Definition maxReachableDistance (st : PlanState) : Q :=
  currentPosition st + Math_max (usableRange st * 0.90) 10.

(** Gallons added by a fill to [fillTo] at [s]. *)
Definition fill_gallons (st : PlanState) (fillTo : Q) (s : Station) : Q :=
  Math_max 0 (Math_round (fillTo - arrival_fuel st s)).

Inductive pass (st : PlanState) : Branch -> PlanState -> Prop :=
| pass_border c s :
    nextBorderCrossing st = Some c ->
    lastStationBeforeBorder c = Some s ->
    0 < distanceFromStart s - currentPosition st ->
    distanceFromStart s - currentPosition st <= usableRange st ->
    0 < fill_gallons st tankSize s ->
    pass st BorderStop
      (advance (push_stop st s (fill_gallons st tankSize s) tankSize
                  (arrival_fuel st s))
               tankSize s)
| pass_reached :
    border_priority st = None ->
    targetFuelAtDestination <= fuelAtDestination st ->
    pass st DestinationReached st
| pass_near_stop s fillTo :
    border_priority st = None ->
    0 <= fuelAtDestination st ->
    fuelAtDestination st < targetFuelAtDestination ->
    findBestStationInRange (currentPosition st) (finalSearchMax st)
      stationsAlongRoute (usedStations st) = Some s ->
    fillTo <= tankSize ->
    0 < fill_gallons st fillTo s ->
    pass st NearMissStop
      (push_stop st s (fill_gallons st fillTo s) fillTo (arrival_fuel st s))
| pass_near_none :
    border_priority st = None ->
    0 <= fuelAtDestination st ->
    fuelAtDestination st < targetFuelAtDestination ->
    pass st NearMissNoStop st
| pass_expanded s :
    border_priority st = None ->
    fuelAtDestination st < 0 ->
    findBestStationInRange (currentPosition st + 20) (maxReachableDistance st)
      stationsAlongRoute (usedStations st) = None ->
    findAnyReachableStation (currentPosition st) (currentFuel st * mpg * 0.95)
      stationsAlongRoute (usedStations st) = Some s ->
    pass st ExpandedStop
      (advance (push_stop st s
                  (Math_round (tankSize - Math_max 0 (arrival_fuel st s)))
                  tankSize (Math_max 0 (arrival_fuel st s)))
               tankSize s)
| pass_halt :
    border_priority st = None ->
    fuelAtDestination st < 0 ->
    fuelAtDestination st < targetFuelAtDestination ->
    findBestStationInRange (currentPosition st + 20) (maxReachableDistance st)
      stationsAlongRoute (usedStations st) = None ->
    findAnyReachableStation (currentPosition st) (currentFuel st * mpg * 0.95)
      stationsAlongRoute (usedStations st) = None ->
    pass st NoReachableStation st
| pass_discard s :
    border_priority st = None ->
    fuelAtDestination st < 0 ->
    findBestStationInRange (currentPosition st + 20) (maxReachableDistance st)
      stationsAlongRoute (usedStations st) = Some s ->
    arrival_fuel st s < CONFIG.minArrivalGallons ->
    pass st ReserveDiscard (mark_used st s)
| pass_standard s :
    border_priority st = None ->
    fuelAtDestination st < 0 ->
    findBestStationInRange (currentPosition st + 20) (maxReachableDistance st)
      stationsAlongRoute (usedStations st) = Some s ->
    CONFIG.minArrivalGallons <= arrival_fuel st s ->
    pass st StandardStop
      (advance (push_stop st s (fill_gallons st tankSize s) tankSize
                  (arrival_fuel st s))
               tankSize s).

(** Stations of the list that are still unused: what bounds the number of
    passes. *)
Definition unused_count (st : PlanState) : nat :=
  length (List.filter
            (fun s : Station => negb (bool_decide (id s ∈ usedStations st)))
            stationsAlongRoute).

End Planner.

(** ** handleCalculate: the trip summary *)

(** [state.tripSummary], built by [handleCalculate] from the result of
    [calculateFuelStops]: the final fuel capped at the tank size and rounded
    to a tenth, and the sum of the savings of the stops
    ([stop.savings || 0] is the identity on numbers). *)
Record TripSummary : Type := mkTripSummary {
  summary_finalFuel : Q;
  totalSavings : Q
}.

Definition tripSummary (tankSize : Q) (r : PlanResult) : TripSummary :=
  {| summary_finalFuel := toFixed1 (Math_min tankSize (finalFuel r));
     totalSavings :=
       fold_left (fun sum stop => sum + savings stop) (result_stops r) 0 |}.

(** What [renderFuelStopCards] puts in the container: the "Great news! You
    have enough fuel to complete this trip" message when the stop list is
    empty, one card per stop otherwise (the markup of a card is left
    out). *)
Inductive StopsView : Type :=
| EnoughFuelMessage
| StopCards (cards : list Stop).

Definition renderFuelStopCards (fuelStops : list Stop) : StopsView :=
  match fuelStops with
  | [] => EnoughFuelMessage
  | _ => StopCards fuelStops
  end.

(** ** calculateFallbackRoute *)

Section FallbackRoute.

Variable haversineDistance : Q -> Q -> Q -> Q -> Q.

(** The straight line between two points, cut in [numPoints] steps; points
    are (lat, lng) pairs.  [startCoords] and [endCoords] of the returned
    object repeat the arguments and are left out. *)
Definition calculateFallbackRoute (start finish : Q * Q) : RouteData :=
  let distance :=
    haversineDistance (fst start) (snd start) (fst finish) (snd finish) in
  let duration := distance / 55 in
  let numPoints := Z.to_nat (Z.max 20 (Qfloor (distance / 10))) in
  let coordinates :=
    map (fun i : nat =>
           let t := inject_Z (Z.of_nat i) / inject_Z (Z.of_nat numPoints) in
           (fst start + (fst finish - fst start) * t,
            snd start + (snd finish - snd start) * t))
        (seq 0 (S numPoints)) in
  {| coordinates := coordinates; distance := distance; duration := duration |}.

End FallbackRoute.

(** ** Prices: getRegionalPrice (fuel-prices.js) and estimateFuelPrice *)

Module Prices.

(** [REGIONAL_DIESEL_PRICES]. *)
Definition REGIONAL_DIESEL_PRICES : gmap string Q :=
  list_to_map
    [ ("CA", 4.85); ("WA", 4.45); ("OR", 4.35); ("NV", 4.25); ("AZ", 3.95);
      ("UT", 3.75); ("CO", 3.65); ("NM", 3.55); ("WY", 3.60); ("MT", 3.70);
      ("ID", 3.80);
      ("MN", 3.45); ("WI", 3.40); ("MI", 3.50); ("IL", 3.55); ("IN", 3.45);
      ("OH", 3.50); ("IA", 3.35); ("MO", 3.30); ("KS", 3.25); ("NE", 3.30);
      ("SD", 3.35); ("ND", 3.40);
      ("TX", 3.15); ("OK", 3.10); ("AR", 3.20); ("LA", 3.15); ("MS", 3.20);
      ("AL", 3.25); ("TN", 3.20); ("KY", 3.25); ("GA", 3.30); ("FL", 3.50);
      ("SC", 3.25); ("NC", 3.30);
      ("NY", 3.85); ("PA", 3.75); ("NJ", 3.70); ("CT", 3.90); ("MA", 3.85);
      ("NH", 3.65); ("VT", 3.70); ("ME", 3.75); ("RI", 3.80); ("MD", 3.60);
      ("DE", 3.55); ("VA", 3.35); ("WV", 3.40);
      ("DEFAULT", 3.50) ]%string.

(** The property names every object inherits from [Object.prototype]:
    looking one of them up in the table yields a function or an object, not
    a price. *)
Definition Object_prototype_keys : list string :=
  [ "constructor"; "__defineGetter__"; "__defineSetter__"; "hasOwnProperty";
    "__lookupGetter__"; "__lookupSetter__"; "isPrototypeOf";
    "propertyIsEnumerable"; "toString"; "valueOf"; "__proto__";
    "toLocaleString" ]%string.

(** [REGIONAL_DIESEL_PRICES[state] || REGIONAL_DIESEL_PRICES['DEFAULT']];
    [None] stands for the inherited value found under a key of
    [Object_prototype_keys].  No price of the table is 0, so an own entry is
    never falsy. *)
Definition getRegionalPrice (state : string) : option Q :=
  if includes Object_prototype_keys state then None
  else
    match REGIONAL_DIESEL_PRICES !! state with
    | Some p => if Qeq_bool p 0 then REGIONAL_DIESEL_PRICES !! "DEFAULT"%string
                else Some p
    | None => REGIONAL_DIESEL_PRICES !! "DEFAULT"%string
    end.

(** [parseFloat(x.toFixed(2))]: nearest hundredth, ties away from zero. *)
Definition toFixed2 (x : Q) : Q :=
  if ltb x 0
  then - (inject_Z (Qfloor ((- x) * 100 + 0.5)) / 100)
  else inject_Z (Qfloor (x * 100 + 0.5)) / 100.

(** [String.prototype.toLowerCase] on the letters A-Z; other code units are
    kept (strings are taken over code units below 256). *)
Definition lower (c : Ascii.ascii) : Ascii.ascii :=
  let n := Ascii.nat_of_ascii c in
  if (65 <=? n)%nat && (n <=? 90)%nat then Ascii.ascii_of_nat (n + 32) else c.

Fixpoint toLowerCase (s : string) : string :=
  match s with
  | EmptyString => EmptyString
  | String c s' => String (lower c) (toLowerCase s')
  end.

(** [s.includes(sub)]. *)
Fixpoint string_includes (s sub : string) : bool :=
  String.prefix sub s
  || match s with
     | EmptyString => false
     | String _ s' => string_includes s' sub
     end.

(** [estimateFuelPrice(lat, lng, brand, stateCode)]; [fuelPricesLoaded]
    tells whether [window.FuelPrices] is there. *)
Definition estimateFuelPrice (fuelPricesLoaded : bool) (lat lng : Q)
    (brand stateCode : string) : option Q :=
  if fuelPricesLoaded && negb (String.eqb stateCode "")
  then getRegionalPrice stateCode
  else
    let basePrice : Q := 3.50 in
    let basePrice :=
      if ltb lng (-115) then basePrice + 0.80
      else if ltb lng (-100) then basePrice + 0.20
      else if ltb lng (-85) then basePrice - 0.20
      else basePrice + 0.10 in
    let brandVariance : Q :=
      if string_includes (toLowerCase brand) "flying" then - 0.05 else 0 in
    Some (toFixed2 (basePrice + brandVariance)).

End Prices.

(** ** parseCSVWithMultiline *)

Module CSV.

Definition quote : Ascii.ascii := "034"%char.
Definition comma : Ascii.ascii := ","%char.
Definition LF : Ascii.ascii := "010"%char.
Definition CR : Ascii.ascii := "013"%char.

(** The white space [String.prototype.trim] removes, among the code units
    below 256. *)
Definition is_whitespace (c : Ascii.ascii) : bool :=
  match Ascii.nat_of_ascii c with
  | 9 | 10 | 11 | 12 | 13 | 32 | 160 => true
  | _ => false
  end%nat.

Fixpoint trim_start (s : string) : string :=
  match s with
  | EmptyString => EmptyString
  | String c s' => if is_whitespace c then trim_start s' else s
  end.

Fixpoint trim_end (s : string) : string :=
  match s with
  | EmptyString => EmptyString
  | String c s' =>
      match trim_end s' with
      | EmptyString => if is_whitespace c then EmptyString else String c EmptyString
      | t => String c t
      end
  end.

Definition trim (s : string) : string := trim_end (trim_start s).

(** The locals of the parser. *)
Record ParseState : Type := mkParseState {
  records : list (list string);
  currentRecord : list string;
  currentField : string;
  inQuotes : bool
}.

(** [currentField += char]. *)
Definition add_char (st : ParseState) (c : Ascii.ascii) : ParseState :=
  {| records := records st;
     currentRecord := currentRecord st;
     currentField := currentField st ++ String c EmptyString;
     inQuotes := inQuotes st |}.

Definition set_inQuotes (st : ParseState) (b : bool) : ParseState :=
  {| records := records st;
     currentRecord := currentRecord st;
     currentField := currentField st;
     inQuotes := b |}.

(** [currentRecord.push(currentField.trim()); currentField = '']. *)
Definition end_field (st : ParseState) : ParseState :=
  {| records := records st;
     currentRecord := currentRecord st ++ [trim (currentField st)];
     currentField := EmptyString;
     inQuotes := inQuotes st |}.

(** [currentRecord.length > 0 && currentRecord[0]]. *)
Definition has_first_field (record : list string) : bool :=
  match record with
  | [] => false
  | first :: _ => negb (String.eqb first "")
  end.

(** The end of a record: the field is pushed, the record is kept when its
    first field is not empty, and both are reset. *)
Definition end_record (st : ParseState) : ParseState :=
  let record := currentRecord st ++ [trim (currentField st)] in
  {| records :=
       if has_first_field record then records st ++ [record] else records st;
     currentRecord := [];
     currentField := EmptyString;
     inQuotes := inQuotes st |}.

(** The [while] loop over the text that is left. *)
Fixpoint parse_loop (text : string) (st : ParseState) : ParseState :=
  match text with
  | EmptyString => st
  | String char rest =>
      if inQuotes st then
        if Ascii.eqb char quote then
          match rest with
          | String nextChar rest' =>
              if Ascii.eqb nextChar quote
              then parse_loop rest' (add_char st quote)
              else parse_loop rest (set_inQuotes st false)
          | EmptyString => parse_loop rest (set_inQuotes st false)
          end
        else parse_loop rest (add_char st char)
      else if Ascii.eqb char quote then parse_loop rest (set_inQuotes st true)
      else if Ascii.eqb char comma then parse_loop rest (end_field st)
      else if Ascii.eqb char CR then
        match rest with
        | String nextChar rest' =>
            if Ascii.eqb nextChar LF
            then parse_loop rest' (end_record st)
            else parse_loop rest (end_record st)
        | EmptyString => parse_loop rest (end_record st)
        end
      else if Ascii.eqb char LF then parse_loop rest (end_record st)
      else parse_loop rest (add_char st char)
  end.

Definition parseCSVWithMultiline (text : string) : list (list string) :=
  let st := parse_loop text
              {| records := []; currentRecord := [];
                 currentField := EmptyString; inQuotes := false |} in
  if negb (String.eqb (currentField st) "")
     || negb (Nat.eqb (length (currentRecord st)) 0)
  then records (end_record st)
  else records st.

(** The line breaks of a text: its CR and LF code units. *)
Fixpoint line_breaks (text : string) : nat :=
  match text with
  | EmptyString => 0
  | String c rest =>
      (if Ascii.eqb c CR || Ascii.eqb c LF then 1 else 0) + line_breaks rest
  end%nat.

Fixpoint has_char (c : Ascii.ascii) (text : string) : bool :=
  match text with
  | EmptyString => false
  | String d rest => Ascii.eqb c d || has_char c rest
  end.

End CSV.


(** ** Scenarios

    Concrete stations, routes and runs used to exercise the functions
    above. *)

Module Scenarios.

Definition station (i st : string) (p : Price) (dfs dfr : Q) : Station :=
  {| data := {| id := i; state := st; lat := 0; lng := 0; price := p |};
     distanceFromStart := dfs;
     distanceFromRoute := dfr;
     routeIndex := 0 |}.

(** A route of the given length; the planner reads nothing else of it. *)
Definition route (miles : Q) : RouteData :=
  {| coordinates := []; distance := miles; duration := miles / 55 |}.

(** No station in the corridor, 700 miles to go on 10 gallons. *)
Definition stranded : option (PlanState * list Branch) :=
  simulate (route 700) [] 100 7 10.

(** No station in the corridor, 175 miles to go on a full 100 gallon
    tank: the destination is reached with exactly the target. *)
Definition comfortable : option (PlanState * list Branch) :=
  simulate (route 175) [] 100 7 100.

(** One station 250 miles ahead, 40 gallons in a 100 gallon tank at 7 mpg:
    out of the safe window, inside 95% of the range. *)
Definition far_station : list Station :=
  [station "a" "NV" (PriceNum 3.00) 250 1].

(** A haul of 1400 miles through Nevada and Oregon into California. *)
Definition long_haul : list Station :=
  [ station "a" "NV" (PriceNum 3.10) 150 1;
    station "b" "NV" (PriceNum 2.90) 420 0.5;
    station "c" "NV" (PriceNum 3.40) 700 1;
    station "d" "OR" (PriceNum 3.20) 900 1;
    station "e" "CA" (PriceNum 4.50) 950 1;
    station "f" "CA" (PriceNum 4.60) 1200 1 ].

(** The border 100 miles ahead, the last station before it at mile 90, a
    full 150 gallon tank and 200 miles to go. *)
Definition before_border : list Station :=
  [ station "x" "NV" (PriceNum 3.20) 90 1;
    station "y" "CA" (PriceNum 4.50) 100 1 ].

(** The same border, with the last station before it one mile from the
    start: the tank is still full there. *)
Definition border_at_start : list Station :=
  [ station "a" "NV" (PriceNum 3.00) 1 1;
    station "b" "CA" (PriceNum 4.00) 10 1 ].

Definition nevada_exit : Station := station "x" "NV" (PriceNum 3.20) 90 1.
Definition california_border : Crossing :=
  {| enteringState := "CA";
     borderDistance := 100;
     firstStationInState := station "y" "CA" (PriceNum 4.50) 100 1;
     lastStationBeforeBorder := Some nevada_exit |}.

(** A single station in the window, whose price is not a number. *)
Definition unpriced : list Station :=
  [ station "a" "NV" PriceUndefined 50 1 ].

(** A stand-in for the great-circle distance: miles on a flat grid. *)
Definition grid_distance (lat1 lng1 lat2 lng2 : Q) : Q :=
  Math_abs (lat1 - lat2) + Math_abs (lng1 - lng2).

(** Ten miles due east in steps of two. *)
Definition short_route : RouteData :=
  {| coordinates := [(0, 0); (0, 2); (0, 4); (0, 6); (0, 8); (0, 10)];
     distance := 10;
     duration := 10 / 55 |}.

(** Two miles off the route at mile 4; a tenth of a mile off it at mile 6;
    four miles off it at mile 8. *)
Definition off_route : StationData :=
  {| id := "x"; state := "NV"; lat := 2; lng := 4; price := PriceNum 3.10 |}.
Definition on_route : StationData :=
  {| id := "y"; state := "NV"; lat := 0.1; lng := 6; price := PriceNum 3.20 |}.
Definition too_far : StationData :=
  {| id := "z"; state := "NV"; lat := 4; lng := 8; price := PriceNum 2.80 |}.

(** A station whose price is [null] next to one at 2.50. *)
Definition null_priced : list Station :=
  [ station "n" "NV" PriceNull 40 1;
    station "p" "NV" (PriceNum 2.50) 60 1 ].

End Scenarios.

(** Further concrete data. *)
Module Cases.

Definition reno : Q * Q := (39.5, -119.8).
Definition salt_lake : Q * Q := (40.8, -111.9).

(** Three stations at miles 0, 4 and 8 of [Scenarios.short_route], each
    nearer the route than the one before it: 2, 1 and 0 miles off it. *)
Definition chain : list StationData :=
  [ {| id := "a"; state := "NV"; lat := 2; lng := 0; price := PriceNum 3.10 |};
    {| id := "b"; state := "NV"; lat := 1; lng := 4; price := PriceNum 3.10 |};
    {| id := "c"; state := "NV"; lat := 0; lng := 8; price := PriceNum 3.10 |} ].

(** Idaho at the start, Washington from mile 10, Oregon at mile 50 and
    California from mile 60. *)
Definition oregon_exit : Station :=
  Scenarios.station "s2" "OR" (PriceNum 4.35) 50 1.
Definition two_borders : list Station :=
  [ Scenarios.station "s1" "ID" (PriceNum 3.80) 0 1;
    Scenarios.station "b1" "WA" (PriceNum 4.45) 10 1;
    oregon_exit;
    Scenarios.station "b2" "CA" (PriceNum 4.85) 60 1 ].

(** Nevada one mile from the start, California from mile 10, Nevada again
    at mile 50 and California from mile 60. *)
Definition nevada_exit_again : Station :=
  Scenarios.station "s2" "NV" (PriceNum 4.25) 50 1.
Definition border_twice : list Station :=
  [ Scenarios.station "s1" "NV" (PriceNum 4.25) 1 1;
    Scenarios.station "b1" "CA" (PriceNum 4.85) 10 1;
    nevada_exit_again;
    Scenarios.station "b2" "CA" (PriceNum 4.85) 60 1 ].

(** A trip wholly inside Texas. *)
Definition texas : list Station :=
  [ Scenarios.station "t1" "TX" (PriceNum 3.15) 100 1;
    Scenarios.station "t2" "TX" (PriceNum 3.15) 300 1;
    Scenarios.station "t3" "TX" (PriceNum 3.10) 520 1 ].

End Cases.

(** * Properties *)

(** ** Comparisons and rounding *)

Lemma leb_true (a b : Q) : leb a b = true <-> a <= b.
Proof. apply Qle_bool_iff. Qed.

Lemma leb_false (a b : Q) : leb a b = false <-> b < a.
Proof.
  unfold leb. rewrite <- not_true_iff_false, Qle_bool_iff. split; intros H.
  - apply Qnot_le_lt, H.
  - apply Qlt_not_le, H.
Qed.

Lemma ltb_true (a b : Q) : ltb a b = true <-> a < b.
Proof. unfold ltb. rewrite negb_true_iff. apply leb_false. Qed.

Lemma ltb_false (a b : Q) : ltb a b = false <-> b <= a.
Proof. unfold ltb. rewrite negb_false_iff. apply leb_true. Qed.

(** Turns the boolean tests found in the hypotheses into order facts. *)
Ltac js_tests :=
  repeat match goal with
  | H : gtb _ _ = _ |- _ => unfold gtb in H
  | H : geb _ _ = _ |- _ => unfold geb in H
  | H : (_ && _) = true |- _ => apply andb_true_iff in H; destruct H
  | H : negb _ = true |- _ => apply negb_true_iff in H
  | H : negb _ = false |- _ => apply negb_false_iff in H
  | H : leb _ _ = true |- _ => apply leb_true in H
  | H : leb _ _ = false |- _ => apply leb_false in H
  | H : ltb _ _ = true |- _ => apply ltb_true in H
  | H : ltb _ _ = false |- _ => apply ltb_false in H
  | H : bool_decide _ = true |- _ => apply bool_decide_eq_true in H
  | H : bool_decide _ = false |- _ => apply bool_decide_eq_false in H
  end.

Lemma Math_max_le_l (a b : Q) : a <= Math_max a b.
Proof.
  unfold Math_max. destruct (leb a b) eqn:E; js_tests; lra.
Qed.

Lemma Math_max_le_r (a b : Q) : b <= Math_max a b.
Proof.
  unfold Math_max. destruct (leb a b) eqn:E; js_tests; lra.
Qed.

Lemma Math_max_cases (a b : Q) :
  (a <= b /\ Math_max a b = b) \/ (b < a /\ Math_max a b = a).
Proof.
  unfold Math_max. destruct (leb a b) eqn:E; js_tests; auto.
Qed.

Lemma Math_min_le_l (a b : Q) : Math_min a b <= a.
Proof.
  unfold Math_min. destruct (leb a b) eqn:E; js_tests; lra.
Qed.

Lemma Math_min_le_r (a b : Q) : Math_min a b <= b.
Proof.
  unfold Math_min. destruct (leb a b) eqn:E; js_tests; lra.
Qed.

(** Rounding a number that is not positive gives nothing positive. *)
Lemma Math_round_nonpos (x : Q) : x <= 0 -> Math_round x <= 0.
Proof.
  intros Hx. unfold Math_round.
  assert (H : (Qfloor (x + 0.5) <= 0)%Z).
  { change 0%Z with (Qfloor 0.5). apply Qfloor_resp_le. lra. }
  change 0 with (inject_Z 0). rewrite <- Zle_Qle. exact H.
Qed.

(** Rounding to a tenth does not go below a bound that is itself a whole
    number of tenths. *)
Lemma toFixed1_lower (k : Z) (x : Q) :
  (0 <= k)%Z -> inject_Z k / 10 <= x -> inject_Z k / 10 <= toFixed1 x.
Proof.
  intros Hk Hx.
  assert (H0 : 0 <= inject_Z k / 10).
  { apply Qle_shift_div_l; [lra|]. change 0 with (inject_Z 0) at 1.
    rewrite Qmult_0_l. change 0 with (inject_Z 0). rewrite <- Zle_Qle. exact Hk. }
  unfold toFixed1. destruct (ltb x 0) eqn:E; js_tests; [lra|].
  apply Qle_shift_div_l; [lra|].
  assert (Ek : inject_Z k / 10 * 10 == inject_Z k) by field.
  rewrite Ek, <- Zle_Qle.
  rewrite <- (Qfloor_Z k). apply Qfloor_resp_le.
  lra.
Qed.

Lemma toFixed1_nonneg (x : Q) : 0 <= x -> 0 <= toFixed1 x.
Proof.
  intros Hx. generalize (toFixed1_lower 0 x). intros H.
  assert (E : inject_Z 0 / 10 == 0) by reflexivity.
  rewrite E in H. apply H; [lia | exact Hx].
Qed.

Lemma toFixed1_reserve (x : Q) :
  CONFIG.minArrivalGallons <= x -> CONFIG.minArrivalGallons <= toFixed1 x.
Proof.
  intros Hx. generalize (toFixed1_lower 300 x).
  unfold CONFIG.minArrivalGallons in *.
  intros H.
  assert (E : inject_Z 300 / 10 == 30) by reflexivity.
  rewrite E in H. apply H; [lia | exact Hx].
Qed.

(** ** Array_sort *)

Section SortFacts.
Context {A : Type} (compareFn : A -> A -> Q).

Lemma sort_insert_perm (x : A) (l : list A) :
  sort_insert compareFn x l ≡ₚ x :: l.
Proof.
  induction l as [|y l IH]; simpl; [reflexivity|].
  destruct (gtb (compareFn x y) 0); [|reflexivity].
  rewrite IH. apply Permutation_swap.
Qed.

Lemma Array_sort_perm (l : list A) : Array_sort compareFn l ≡ₚ l.
Proof.
  induction l as [|x l IH]; simpl; [reflexivity|].
  rewrite sort_insert_perm, IH. reflexivity.
Qed.

Lemma Array_sort_head (l : list A) (x : A) :
  head (Array_sort compareFn l) = Some x -> x ∈ l.
Proof.
  intros H. apply head_Some_elem_of in H.
  rewrite Array_sort_perm in H. exact H.
Qed.

Lemma Array_sort_head_nonempty (l : list A) :
  l <> [] -> exists x, head (Array_sort compareFn l) = Some x.
Proof.
  intros Hl. destruct (Array_sort compareFn l) as [|x s] eqn:E.
  - exfalso. apply Hl. symmetry. apply Permutation_nil_l.
    rewrite <- E. apply Array_sort_perm.
  - exists x. reflexivity.
Qed.

(** With a comparator that is consistent on a set of elements, inserting
    one of them in a sorted list of them gives a sorted list. *)
Lemma sort_insert_sorted (L : list A) (x : A) (l : list A) :
  consistent compareFn L -> x ∈ L -> (forall y, y ∈ l -> y ∈ L) ->
  sorted compareFn l -> sorted compareFn (sort_insert compareFn x l).
Proof.
  intros [Hanti Htrans] Hx Hl Hs. unfold sorted in *.
  induction Hs as [|y l Hs IH Hy]; simpl.
  - constructor; constructor.
  - assert (HyL : y ∈ L) by (apply Hl; left).
    assert (HlL : forall z, z ∈ l -> z ∈ L) by (intros z Hz; apply Hl; right; exact Hz).
    destruct (gtb (compareFn x y) 0) eqn:E; js_tests.
    + constructor; [apply IH, HlL|].
      apply Forall_forall. intros z Hz. rewrite sort_insert_perm in Hz.
      apply elem_of_cons in Hz. destruct Hz as [->|Hz].
      * assert (compareFn y x < 0) by (apply Hanti; assumption). lra.
      * rewrite Forall_forall in Hy. apply Hy, Hz.
    + constructor; [constructor; assumption|].
      constructor; [exact E|].
      apply Forall_forall. intros z Hz.
      apply (Htrans x y z); auto.
      rewrite Forall_forall in Hy. apply Hy, Hz.
Qed.

Lemma Array_sort_sorted (l : list A) :
  consistent compareFn l -> sorted compareFn (Array_sort compareFn l).
Proof.
  intros Hc.
  assert (H : forall l', (forall y, y ∈ l' -> y ∈ l) ->
                         sorted compareFn (Array_sort compareFn l')).
  { induction l' as [|x l' IH]; intros Hl'; simpl.
    - constructor.
    - apply (sort_insert_sorted l); [exact Hc | apply Hl'; left | |].
      + intros y Hy. rewrite Array_sort_perm in Hy. apply Hl'. right. exact Hy.
      + apply IH. intros y Hy. apply Hl'. right. exact Hy. }
  apply H. auto.
Qed.
End SortFacts.

(** The sort of the model keeps the language's contract. *)
Lemma Array_sort_contract {A : Type} : sort_contract (@Array_sort A).
Proof.
  intros compareFn l. split; [apply Array_sort_perm | apply Array_sort_sorted].
Qed.

(** ** The selection functions return unused stations of the list *)

Lemma in_range_spec (minDistance maxDistance : Q) (used : gset string)
    (s : Station) :
  in_range minDistance maxDistance used s = true <->
  (id s ∉ used) /\ minDistance <= distanceFromStart s
  /\ distanceFromStart s <= maxDistance.
Proof.
  unfold in_range.
  destruct (bool_decide (id s ∈ used)) eqn:Eu; js_tests.
  { split; [discriminate | intros [H _]; contradiction]. }
  destruct (ltb (distanceFromStart s) minDistance) eqn:E1; js_tests.
  { split; [discriminate | intros (_ & H & _); lra]. }
  destruct (gtb (distanceFromStart s) maxDistance) eqn:E2; js_tests.
  { split; [discriminate | intros (_ & _ & H); lra]. }
  split; auto.
Qed.

Lemma best_candidates_incl (l : list Station) (s : Station) :
  s ∈ best_candidates l -> s ∈ l.
Proof.
  assert (F : forall f, s ∈ List.filter f l -> s ∈ l).
  { intros f Hf. apply list_elem_of_In in Hf. apply filter_In in Hf.
    apply list_elem_of_In. tauto. }
  unfold best_candidates. cbv zeta.
  destruct (List.filter is_excellent l) eqn:E1; [|rewrite <- E1; apply F].
  destruct (List.filter is_good l) eqn:E2; [|rewrite <- E2; apply F].
  destruct (List.filter is_fair l) eqn:E3; [|rewrite <- E3; apply F].
  apply F.
Qed.

Lemma findBestStationInRange_Some (minDistance maxDistance : Q)
    (stations : list Station) (used : gset string) (s : Station) :
  findBestStationInRange minDistance maxDistance stations used = Some s ->
  s ∈ stations /\ (id s ∉ used)
  /\ minDistance <= distanceFromStart s /\ distanceFromStart s <= maxDistance.
Proof.
  unfold findBestStationInRange. intros H.
  assert (Hin : s ∈ List.filter (in_range minDistance maxDistance used) stations).
  { destruct (List.filter _ stations) eqn:E; [discriminate|].
    apply Array_sort_head in H. apply best_candidates_incl in H. exact H. }
  apply list_elem_of_In, filter_In in Hin. destruct Hin as [Hin Hr].
  apply in_range_spec in Hr. split; [apply list_elem_of_In, Hin | exact Hr].
Qed.

Lemma reachable_candidates_spec (currentPosition maxRange : Q)
    (stations : list Station) (used : gset string) (c : Station * Q) :
  c ∈ reachable_candidates currentPosition maxRange stations used ->
  fst c ∈ stations /\ (id (fst c) ∉ used)
  /\ currentPosition < distanceFromStart (fst c)
  /\ distanceFromStart (fst c) - currentPosition <= maxRange.
Proof.
  unfold reachable_candidates. intros H.
  apply list_elem_of_In, in_flat_map in H. destruct H as (s & Hs & Hc).
  destruct (bool_decide (id s ∈ used)) eqn:Eu; [destruct Hc|].
  destruct (leb (distanceFromStart s) currentPosition) eqn:E1; [destruct Hc|].
  destruct (leb (distanceFromStart s - currentPosition) maxRange
            && gtb (distanceFromStart s - currentPosition) 0) eqn:E2;
    [|destruct Hc].
  destruct Hc as [<-|[]]. simpl. js_tests.
  split; [apply list_elem_of_In, Hs | auto].
Qed.

Lemma findAnyReachableStation_Some (currentPosition maxRange : Q)
    (stations : list Station) (used : gset string) (s : Station) :
  findAnyReachableStation currentPosition maxRange stations used = Some s ->
  s ∈ stations /\ (id s ∉ used)
  /\ currentPosition < distanceFromStart s
  /\ distanceFromStart s - currentPosition <= maxRange.
Proof.
  unfold findAnyReachableStation. intros H.
  destruct (head _) as [c|] eqn:E; [|discriminate].
  simpl in H. injection H as <-.
  apply Array_sort_head in E. eapply reachable_candidates_spec, E.
Qed.

Lemma findClosestReachableStation_Some (currentPosition maxRange : Q)
    (stations : list Station) (used : gset string) (s : Station) :
  findClosestReachableStation currentPosition maxRange stations used = Some s ->
  s ∈ stations /\ (id s ∉ used)
  /\ currentPosition < distanceFromStart s
  /\ distanceFromStart s - currentPosition <= maxRange.
Proof.
  unfold findClosestReachableStation. intros H.
  destruct (head _) as [c|] eqn:E; [|discriminate].
  simpl in H. injection H as <-.
  apply Array_sort_head in E. eapply reachable_candidates_spec, E.
Qed.

(** ** Border crossings *)

Lemma crossings_loop_last (hp : list string) (before : list Station)
    (prev : string) (rest : list Station) (c : Crossing) (s : Station) :
  c ∈ crossings_loop hp before prev rest ->
  lastStationBeforeBorder c = Some s ->
  s ∈ before ++ rest.
Proof.
  revert before prev. induction rest as [|x rest IH]; intros before prev Hc Hs.
  - simpl in Hc. inversion Hc.
  - simpl in Hc. apply elem_of_app in Hc. destruct Hc as [Hc|Hc].
    + destruct (includes hp (state x) && negb (includes hp prev));
        [|inversion Hc].
      apply list_elem_of_singleton in Hc. subst c. simpl in Hs.
      apply find_some in Hs. apply elem_of_app. left.
      apply list_elem_of_In. tauto.
    + specialize (IH _ _ Hc Hs). apply elem_of_app in IH.
      apply elem_of_app. destruct IH as [IH|IH].
      * apply elem_of_cons in IH. destruct IH as [->|IH]; [right; left|left; auto].
      * right. right. exact IH.
Qed.

Lemma findStateBorderCrossings_last (stations : list Station)
    (hp : list string) (c : Crossing) (s : Station) :
  c ∈ findStateBorderCrossings stations hp ->
  lastStationBeforeBorder c = Some s ->
  s ∈ stations.
Proof.
  unfold findStateBorderCrossings. intros Hc Hs.
  destruct stations as [|x [|y rest]]; [inversion Hc .. |].
  apply (crossings_loop_last _ _ _ _ _ _ Hc Hs).
Qed.

(** ** findBestStationInRange *)






(** What the function does with a station that has no price, which the
    planner never passes to it.  At the station list [unpriced] the window
    0..100 holds the unused station "a", whose price is not a number: it
    passes none of the four tier filters, the candidate array is empty and
    the function returns null.  (The sibling functions default the price,
    to 4 in findAnyReachableStation and to 3.00 in createStopFromStation.)
    A [null] price compares as 0, so the station "n" of [null_priced] is
    ranked excellent and preferred to the station at 2.50. *)
Theorem findBestStationInRange_unpriced :
  (exists s : Station,
      s ∈ Scenarios.unpriced /\ in_range 0 100 ∅ s = true /\ tier s = None)
  /\ findBestStationInRange 0 100 Scenarios.unpriced ∅ = None
  /\ (exists s : Station,
        findAnyReachableStation 0 100 Scenarios.unpriced ∅ = Some s
        /\ stop_price (createStopFromStation 1 s 0 0 0) = 3.00)
  /\ (exists s : Station,
        findBestStationInRange 0 100 Scenarios.null_priced ∅ = Some s
        /\ id s = "n"%string /\ price s = PriceNull
        /\ tier s = Some excellent).
Proof.
  split; [|split; [|split]].
  - eexists. split; [left|]. split; reflexivity.
  - reflexivity.
  - eexists. split; reflexivity.
  - eexists. split; [vm_compute; reflexivity|]. repeat split.
Qed.

(** ** One pass of the loop *)

Section PassFacts.
Variable routeData : RouteData.
Variable stationsAlongRoute : list Station.
Variables tankSize mpg : Q.

Local Abbreviation body := (loop_body routeData stationsAlongRoute tankSize mpg).
Local Abbreviation passes := (pass routeData stationsAlongRoute tankSize mpg).
Local Abbreviation border := (border_priority stationsAlongRoute tankSize mpg).

Lemma border_priority_Some (st st' : PlanState) :
  border st = Some st' -> passes st BorderStop st'.
Proof.
  unfold border_priority. intros H.
  destruct (nextBorderCrossing _ _) as [c|] eqn:Ec; [|discriminate].
  destruct (lastStationBeforeBorder c) as [s|] eqn:Es; [|discriminate].
  destruct (gtb _ 0 && leb _ _) eqn:E1; [|discriminate].
  destruct (gtb (Math_max 0 _) 0) eqn:E2; [|discriminate].
  injection H as <-. js_tests.
  eapply pass_border; eauto.
Qed.

Lemma near_miss_pass (st st' : PlanState) (b : Branch) :
  border st = None ->
  0 <= fuelAtDestination routeData mpg st ->
  fuelAtDestination routeData mpg st < targetFuelAtDestination tankSize ->
  near_miss routeData stationsAlongRoute tankSize mpg st = (b, st') ->
  passes st b st'.
Proof.
  intros Hb H0 Ht. unfold near_miss. intros H.
  destruct (findBestStationInRange _ _ _ _) as [s|] eqn:Es.
  - cbv zeta in H.
    match type of H with
    | (if gtb (Math_max 0 (Math_round (?f - _))) 0 then _ else _) = _ =>
        set (fillTo := f) in *
    end.
    assert (Hf : fillTo <= tankSize).
    { subst fillTo. destruct (_ || _); [lra | apply Math_min_le_l]. }
    destruct (gtb _ 0) eqn:E; injection H as <- <-; js_tests.
    + apply (pass_near_stop _ _ _ _ st s fillTo); auto.
    + apply pass_near_none; auto.
  - injection H as <- <-. apply pass_near_none; auto.
Qed.

Lemma loop_body_pass (st st' : PlanState) (b : Branch) :
  body st = (b, st') -> passes st b st'.
Proof.
  unfold loop_body. intros H.
  destruct (border st) as [sb|] eqn:Eb.
  { injection H as <- <-. apply border_priority_Some, Eb. }
  cbv zeta in H.
  destruct (geb _ (targetFuelAtDestination tankSize)) eqn:E1.
  { injection H as <- <-. js_tests. apply pass_reached; auto. }
  destruct (geb _ 0 && ltb _ _) eqn:E2.
  { js_tests. eapply near_miss_pass; eauto. }
  assert (Hneg : fuelAtDestination routeData mpg st < 0).
  { apply andb_false_iff in E2. js_tests. destruct E2; js_tests.
    - assumption.
    - unfold fuelAtDestination. lra. }
  js_tests.
  destruct (findBestStationInRange _ _ _ _) as [s|] eqn:Es.
  - unfold standard_stop in H. cbv zeta in H.
    destruct (ltb _ CONFIG.minArrivalGallons) eqn:E3.
    + injection H as <- <-. js_tests. apply pass_discard; auto.
    + injection H as <- <-. js_tests. apply pass_standard; auto.
  - unfold expanded_search in H.
    destruct (findAnyReachableStation _ _ _ _) as [e|] eqn:Ee;
      injection H as <- <-.
    + apply pass_expanded; auto.
    + apply pass_halt; auto.
Qed.

End PassFacts.

(** ** The loop *)

Section LoopFacts.
Variable routeData : RouteData.
Variable stationsAlongRoute : list Station.
Variables tankSize mpg : Q.

Local Abbreviation body := (loop_body routeData stationsAlongRoute tankSize mpg).
Local Abbreviation passes := (pass routeData stationsAlongRoute tankSize mpg).
Local Abbreviation loop := (while_loop routeData stationsAlongRoute tankSize mpg).
Local Abbreviation unused := (unused_count stationsAlongRoute).
Local Abbreviation entered :=
  (fun st => ltb (currentPosition st) (totalDistance routeData) = true).

(** Every pass that does not leave the loop marks a station of the list
    that was unused so far. *)
Lemma pass_marks (st st' : PlanState) (b : Branch) :
  passes st b st' -> exits b = false ->
  exists s : Station,
    s ∈ stationsAlongRoute /\ (id s ∉ usedStations st)
    /\ usedStations st' = {[ id s ]} ∪ usedStations st.
Proof.
  intros Hp Hb. destruct Hp; try discriminate Hb.
  - (* BorderStop *)
    exists s. unfold nextBorderCrossing in *.
    match goal with H : List.find _ _ = Some _ |- _ =>
      apply find_some in H; destruct H as [Hin Hpend] end.
    unfold border_pending in Hpend.
    match goal with H : lastStationBeforeBorder _ = Some _ |- _ =>
      rewrite H in Hpend end.
    js_tests. split; [|split; [assumption | reflexivity]].
    eapply findStateBorderCrossings_last; [apply list_elem_of_In|]; eauto.
  - (* ExpandedStop *)
    exists s.
    match goal with H : findAnyReachableStation _ _ _ _ = Some _ |- _ =>
      apply findAnyReachableStation_Some in H; destruct H as (?&?&?&?) end.
    auto.
  - (* ReserveDiscard *)
    exists s.
    match goal with H : findBestStationInRange _ _ _ _ = Some _ |- _ =>
      apply findBestStationInRange_Some in H; destruct H as (?&?&?&?) end.
    auto.
  - (* StandardStop *)
    exists s.
    match goal with H : findBestStationInRange _ _ _ _ = Some _ |- _ =>
      apply findBestStationInRange_Some in H; destruct H as (?&?&?&?) end.
    auto.
Qed.

Lemma unused_filter_le (l : list Station) (x : string) (used : gset string) :
  (length (List.filter
             (fun t : Station => negb (bool_decide (id t ∈ {[ x ]} ∪ used))) l)
   <= length (List.filter
                (fun t : Station => negb (bool_decide (id t ∈ used))) l))%nat.
Proof.
  induction l as [|y l IH]; simpl; [lia|].
  destruct (bool_decide (id y ∈ used)) eqn:E1;
    destruct (bool_decide (id y ∈ {[ x ]} ∪ used)) eqn:E2;
    simpl; try lia.
  exfalso. apply bool_decide_eq_true in E1.
  apply bool_decide_eq_false in E2. set_solver.
Qed.

Lemma unused_filter_lt (l : list Station) (s : Station) (used : gset string) :
  s ∈ l -> id s ∉ used ->
  (length (List.filter
             (fun t : Station => negb (bool_decide (id t ∈ {[ id s ]} ∪ used))) l)
   < length (List.filter
               (fun t : Station => negb (bool_decide (id t ∈ used))) l))%nat.
Proof.
  intros Hin Hs. induction l as [|y l IH]; [inversion Hin|].
  apply elem_of_cons in Hin. simpl.
  destruct Hin as [<-|Hin].
  - generalize (unused_filter_le l (id s) used).
    destruct (bool_decide (id s ∈ used)) eqn:E1.
    { apply bool_decide_eq_true in E1. contradiction. }
    destruct (bool_decide (id s ∈ {[ id s ]} ∪ used)) eqn:E2.
    { simpl. lia. }
    apply bool_decide_eq_false in E2. exfalso. set_solver.
  - specialize (IH Hin).
    destruct (bool_decide (id y ∈ used)) eqn:E1;
      destruct (bool_decide (id y ∈ {[ id s ]} ∪ used)) eqn:E2;
      simpl; try lia.
    exfalso. apply bool_decide_eq_true in E1.
    apply bool_decide_eq_false in E2. set_solver.
Qed.

Lemma pass_unused (st st' : PlanState) (b : Branch) :
  body st = (b, st') -> exits b = false -> (unused st' < unused st)%nat.
Proof.
  intros Hb He. apply loop_body_pass in Hb.
  destruct (pass_marks _ _ _ Hb He) as (s & Hin & Hs & Hu).
  unfold unused_count. rewrite Hu. apply unused_filter_lt; assumption.
Qed.

Lemma unused_le_length (st : PlanState) :
  (unused st <= length stationsAlongRoute)%nat.
Proof. unfold unused_count. apply filter_length_le. Qed.

(** With more passes allowed than there are unused stations the loop
    returns, after at most one pass more than there are unused stations;
    all its passes but the last go round again. *)
Lemma while_loop_total (n : nat) (st : PlanState) :
  (unused st < n)%nat ->
  exists final trace,
    loop n st = Some (final, trace)
    /\ (length trace <= S (unused st))%nat
    /\ (length (List.filter (fun b => negb (exits b)) trace) <= unused st)%nat.
Proof.
  revert st. induction n as [|n IH]; intros st Hn; [lia|].
  simpl. destruct (ltb (currentPosition st) _) eqn:Ew.
  2:{ exists st, []. simpl. split; [reflexivity | lia]. }
  destruct (body st) as [b st'] eqn:Eb.
  destruct (exits b) eqn:Ee.
  { exists st', [b]. simpl. rewrite Ee. simpl. split; [reflexivity | lia]. }
  pose proof (pass_unused _ _ _ Eb Ee) as Hlt.
  destruct (IH st') as (final & trace & Hrun & Hlen & Hcnt); [lia|].
  rewrite Hrun. exists final, (b :: trace). simpl. rewrite Ee. simpl.
  split; [reflexivity | lia].
Qed.

(** Allowing more passes does not change the result. *)
Lemma while_loop_more (n m : nat) (st : PlanState)
    (r : PlanState * list Branch) :
  loop n st = Some r -> (n <= m)%nat -> loop m st = Some r.
Proof.
  revert m st r. induction n as [|n IH]; intros m st r H Hm.
  - simpl in H. destruct m; simpl; destruct (ltb _ _); congruence.
  - destruct m as [|m]; [lia|]. simpl in *.
    destruct (ltb _ _); [|exact H].
    destruct (body st) as [b st'].
    destruct (exits b); [exact H|].
    destruct (loop n st') as [[f t]|] eqn:E; [|discriminate].
    rewrite (IH m st' (f, t) E); [exact H | lia].
Qed.

(** Induction over the passes of a run: [Inv] holds at the head of the
    loop, [Post] of the state the loop ends in. *)
Lemma while_loop_ind (Inv Post : PlanState -> Prop) :
  (forall st b st', Inv st -> entered st -> body st = (b, st') ->
                    exits b = false -> Inv st') ->
  (forall st b st', Inv st -> entered st -> body st = (b, st') ->
                    exits b = true -> Post st') ->
  (forall st, Inv st -> Post st) ->
  forall n st final trace,
    Inv st -> loop n st = Some (final, trace) -> Post final.
Proof.
  intros Hstep Hexit Hend.
  induction n as [|n IH]; intros st final trace Hinv Hrun; simpl in Hrun.
  - destruct (ltb _ _); [discriminate|]. injection Hrun as <- <-. auto.
  - destruct (ltb _ _) eqn:Ew; [|injection Hrun as <- <-; auto].
    destruct (body st) as [b st'] eqn:Eb.
    destruct (exits b) eqn:Ee.
    + injection Hrun as <- <-. eauto.
    + destruct (loop n st') as [[f t]|] eqn:E; [|discriminate].
      injection Hrun as <- <-. eapply IH; [|exact E]. eauto.
Qed.

(** Every entry of the trace is the branch of a pass of the body. *)
Lemma while_loop_trace (n : nat) (st final : PlanState) (trace : list Branch) :
  loop n st = Some (final, trace) ->
  Forall (fun b => exists s s', entered s /\ body s = (b, s')) trace.
Proof.
  revert st final trace.
  induction n as [|n IH]; intros st final trace Hrun; simpl in Hrun.
  - destruct (ltb _ _); [discriminate|]. injection Hrun as <- <-. constructor.
  - destruct (ltb _ _) eqn:Ew; [|injection Hrun as <- <-; constructor].
    destruct (body st) as [b st'] eqn:Eb.
    destruct (exits b) eqn:Ee.
    + injection Hrun as <- <-. constructor; [eauto | constructor].
    + destruct (loop n st') as [[f t]|] eqn:E; [|discriminate].
      injection Hrun as <- <-. constructor; [eauto | eapply IH, E].
Qed.

Lemma while_loop_nil (n : nat) (st final : PlanState) :
  loop n st = Some (final, []) -> final = st.
Proof.
  destruct n; simpl; destruct (ltb _ _); try congruence.
  destruct (body st) as [b st']. destruct (exits b); [congruence|].
  destruct (loop n st') as [[? ?]|]; congruence.
Qed.

(** The state the loop ends in is the one its last pass produced. *)
Lemma while_loop_last (n : nat) (st final : PlanState)
    (trace : list Branch) (b : Branch) :
  loop n st = Some (final, trace) -> last trace = Some b ->
  exists s, entered s /\ body s = (b, final).
Proof.
  revert st final trace.
  induction n as [|n IH]; intros st final trace Hrun Hlast; simpl in Hrun.
  - destruct (ltb _ _); [discriminate|]. injection Hrun as <- <-. discriminate.
  - destruct (ltb _ _) eqn:Ew; [|injection Hrun as <- <-; discriminate].
    destruct (body st) as [b0 st'] eqn:Eb.
    destruct (exits b0) eqn:Ee.
    + injection Hrun as <- <-. injection Hlast as <-. eauto.
    + destruct (loop n st') as [[f t]|] eqn:E; [|discriminate].
      injection Hrun as <- <-.
      destruct t as [|b1 t].
      * injection Hlast as <-. apply while_loop_nil in E. subst f. eauto.
      * eapply IH; [exact E|]. rewrite last_cons_cons in Hlast. exact Hlast.
Qed.

End LoopFacts.

(** ** Whole runs *)

Section RunFacts.
Variable routeData : RouteData.
Variable stationsAlongRoute : list Station.
Variables tankSize mpg : Q.

Local Abbreviation body := (loop_body routeData stationsAlongRoute tankSize mpg).
Local Abbreviation passes := (pass routeData stationsAlongRoute tankSize mpg).
Local Abbreviation loop := (while_loop routeData stationsAlongRoute tankSize mpg).
Local Abbreviation run := (simulate routeData stationsAlongRoute tankSize mpg).
Local Abbreviation plan :=
  (calculateFuelStops routeData stationsAlongRoute tankSize mpg).

(** The loop always returns. *)
Lemma simulate_total (currentGallons : Q) :
  exists final trace,
    run currentGallons = Some (final, trace)
    /\ (length trace <= S (length stationsAlongRoute))%nat
    /\ (length (List.filter (fun b => negb (exits b)) trace)
        <= length stationsAlongRoute)%nat.
Proof.
  unfold simulate.
  pose proof (unused_le_length stationsAlongRoute
                (initial_state currentGallons)) as Hle.
  destruct (while_loop_total routeData stationsAlongRoute tankSize mpg
              (S (length stationsAlongRoute)) (initial_state currentGallons))
    as (final & trace & Hrun & Hlen & Hcnt); [lia|].
  exists final, trace. split; [exact Hrun | lia].
Qed.

Lemma calculateFuelStops_simulate (currentGallons : Q) (final : PlanState)
    (trace : list Branch) :
  run currentGallons = Some (final, trace) ->
  plan currentGallons = Some (finish routeData tankSize mpg final).
Proof. unfold calculateFuelStops. intros ->. reflexivity. Qed.

(** C10. The closest-reachable fallback is dead code: no pass of the loop
    body ends in the branch that calls findClosestReachableStation (the
    second guard [fuelAtStation < minArrivalGallons] repeats the first,
    which has already ended the pass), so no run ever calls it. *)
Theorem findClosestReachableStation_unreachable (currentGallons : Q) :
  (forall st, calls_findClosestReachableStation (fst (body st)) = false)
  /\ exists final trace,
       run currentGallons = Some (final, trace)
       /\ Forall (fun b => calls_findClosestReachableStation b = false) trace.
Proof.
  assert (Hpass : forall st,
             calls_findClosestReachableStation (fst (body st)) = false).
  { intros st. destruct (body st) as [b st'] eqn:E.
    apply loop_body_pass in E. destruct E; reflexivity. }
  split; [exact Hpass|].
  destruct (simulate_total currentGallons) as (final & trace & Hrun & _).
  exists final, trace. split; [exact Hrun|].
  apply while_loop_trace in Hrun.
  eapply Forall_impl; [exact Hrun|]. simpl.
  intros b (s & s' & _ & Hb). specialize (Hpass s). rewrite Hb in Hpass.
  exact Hpass.
Qed.

Lemma Math_max_compat (a b b' : Q) : b == b' -> Math_max a b == Math_max a b'.
Proof.
  intros E. unfold Math_max.
  destruct (leb a b) eqn:E1; destruct (leb a b') eqn:E2; js_tests; lra.
Qed.

(** C5 (as amended). On a route of length zero the loop is not entered:
    the stop list is empty and the final fuel estimate is the larger of
    the target (0.75 x tankSize) and the current fuel; it is the current
    fuel itself when that is at least the target. *)
Theorem degenerate_route (currentGallons : Q) :
  distance routeData == 0 -> 0 < mpg ->
  exists r,
    plan currentGallons = Some r
    /\ result_stops r = []
    /\ finalFuel r == Math_max (targetFuelAtDestination tankSize) currentGallons
    /\ (targetFuelAtDestination tankSize <= currentGallons ->
        finalFuel r == currentGallons).
Proof.
  intros Hd Hmpg.
  assert (Hrun : run currentGallons = Some (initial_state currentGallons, [])).
  { unfold simulate. simpl.
    assert (E : ltb 0 (totalDistance routeData) = false).
    { apply ltb_false. unfold totalDistance. lra. }
    rewrite E. reflexivity. }
  apply calculateFuelStops_simulate in Hrun.
  eexists. split; [exact Hrun|]. split; [reflexivity|].
  assert (Hf : finalFuel (finish routeData tankSize mpg
                            (initial_state currentGallons))
               == Math_max (targetFuelAtDestination tankSize) currentGallons).
  { simpl. apply Math_max_compat. unfold totalDistance. rewrite Hd.
    field. lra. }
  split; [exact Hf|].
  intros Ht. rewrite Hf.
  destruct (Math_max_cases (targetFuelAtDestination tankSize) currentGallons)
    as [[_ ->]|[Hlt _]]; [reflexivity | lra].
Qed.

(** C4 (as amended). When the loop halts because no station is reachable,
    the function returns the stops committed so far and a final fuel
    estimate clamped to the target: the record holds nothing else, the
    halt is only logged. *)
Theorem failure_halt_result (currentGallons : Q) (final : PlanState)
    (trace : list Branch) :
  0 < mpg ->
  run currentGallons = Some (final, trace) ->
  last trace = Some NoReachableStation ->
  fuelAtDestination routeData mpg final < 0
  /\ plan currentGallons
     = Some {| result_stops := stops final;
               finalFuel := targetFuelAtDestination tankSize |}.
Proof.
  intros Hmpg Hrun Hlast.
  pose proof (calculateFuelStops_simulate _ _ _ Hrun) as Hplan.
  apply (while_loop_last _ _ _ _ _ _ _ _ _ Hrun) in Hlast.
  destruct Hlast as (s & _ & Hb). apply loop_body_pass in Hb.
  inversion Hb; subst.
  split; [assumption|].
  rewrite Hplan. unfold finish. f_equal. f_equal.
  unfold Math_max.
  match goal with |- (if leb ?a ?b then _ else _) = _ =>
    change b with (fuelAtDestination routeData mpg final);
    assert (E : leb a (fuelAtDestination routeData mpg final) = false)
      by (apply leb_false; assumption)
  end.
  rewrite E. reflexivity.
Qed.


(** *** What a pass does to the stop list *)

Lemma neighbours_snoc {A : Type} (R : A -> A -> Prop) (l : list A) (x : A) :
  neighbours R l -> (forall y, last l = Some y -> R y x) ->
  neighbours R (l ++ [x]).
Proof.
  induction 1 as [|y|y z l Hyz Hl IH]; intros Hlast; simpl.
  - constructor.
  - apply neighbours_cons; [apply Hlast; reflexivity | constructor].
  - apply neighbours_cons; [exact Hyz|]. apply IH.
    intros w Hw. apply Hlast. rewrite last_cons_cons. exact Hw.
Qed.

(** A pass leaves the stops alone, or pushes one stop, numbered after the
    last, for a station of the list that was unused and is marked used. *)
Lemma pass_stops (st st' : PlanState) (b : Branch) :
  passes st b st' ->
  (commits b = false /\ stops st' = stops st
   /\ usedStations st ⊆ usedStations st')
  \/ (commits b = true
      /\ exists (s : Station) (g f a : Q),
           s ∈ stationsAlongRoute /\ (id s ∉ usedStations st)
           /\ stops st' = stops st ++
                [createStopFromStation (S (length (stops st))) s g f a]
           /\ usedStations st' = {[ id s ]} ∪ usedStations st).
Proof.
  intros Hp.
  assert (Hbest : forall lo hi s,
             findBestStationInRange lo hi stationsAlongRoute (usedStations st)
             = Some s -> s ∈ stationsAlongRoute /\ (id s ∉ usedStations st)).
  { intros lo hi s H. apply findBestStationInRange_Some in H. tauto. }
  destruct Hp as [c s Hc Hl Hd1 Hd2 Hg | Hb Ht | s fillTo Hb H0 Ht Hf Hle Hg
                  | Hb H0 Ht | s Hb Hn Hf Ha | Hb Hn Ht Hf Ha
                  | s Hb Hn Hf Ha | s Hb Hn Hf Ha].
  - right. split; [reflexivity|].
    assert (Hs : s ∈ stationsAlongRoute /\ (id s ∉ usedStations st)).
    { unfold nextBorderCrossing in Hc. apply find_some in Hc.
      destruct Hc as [Hc Hpend]. unfold border_pending in Hpend.
      rewrite Hl in Hpend. js_tests. split; [|assumption].
      eapply findStateBorderCrossings_last; [apply list_elem_of_In|]; eauto. }
    do 4 eexists. split; [apply Hs|]. split; [apply Hs|].
    split; reflexivity.
  - left. split; [reflexivity|]. split; reflexivity.
  - right. split; [reflexivity|].
    destruct (Hbest _ _ _ Hf). do 4 eexists. repeat split; eauto.
  - left. split; [reflexivity|]. split; reflexivity.
  - right. split; [reflexivity|].
    apply findAnyReachableStation_Some in Ha. destruct Ha as (?&?&?&?).
    do 4 eexists. repeat split; eauto.
  - left. split; [reflexivity|]. split; reflexivity.
  - left. split; [reflexivity|]. split; [reflexivity|]. simpl.
    apply union_subseteq_r.
  - right. split; [reflexivity|].
    destruct (Hbest _ _ _ Hf). do 4 eexists. repeat split; eauto.
Qed.

Lemma stop_ids_snoc (l : list Stop) (x : Stop) :
  stop_ids (l ++ [x]) = stop_ids l ++ [id (stop_station x)].
Proof. unfold stop_ids. rewrite map_app. reflexivity. Qed.

(** The ids of the stops are pairwise different and all marked used. *)
Lemma pass_no_duplicates (st st' : PlanState) (b : Branch) :
  body st = (b, st') ->
  NoDup (stop_ids (stops st))
  /\ (forall x, x ∈ stop_ids (stops st) -> x ∈ usedStations st) ->
  NoDup (stop_ids (stops st'))
  /\ (forall x, x ∈ stop_ids (stops st') -> x ∈ usedStations st').
Proof.
  intros Hb [Hnd Hused]. apply loop_body_pass, pass_stops in Hb.
  destruct Hb as [(_ & -> & Hsub)|(_ & s & g & f & a & Hin & Hnot & -> & ->)].
  - split; [exact Hnd|]. intros x Hx. apply Hsub, Hused, Hx.
  - rewrite stop_ids_snoc. simpl. split.
    + apply NoDup_app. split; [exact Hnd|]. split.
      * intros x Hx Hx'. apply list_elem_of_singleton in Hx'. subst x.
        apply Hnot, Hused, Hx.
      * apply NoDup_singleton.
    + intros x Hx. apply elem_of_app in Hx. destruct Hx as [Hx|Hx].
      * apply elem_of_union_r, Hused, Hx.
      * apply list_elem_of_singleton in Hx. subst x.
        apply elem_of_union_l, elem_of_singleton. reflexivity.
Qed.

(** C3. No station id appears twice among the stops that are returned:
    every pass that commits a stop takes a station whose id is not in
    usedStations and adds the id to it, and each of the three selection
    functions only returns stations whose id is not in the set. *)
Theorem no_duplicate_stops (currentGallons : Q) :
  0 < mpg ->
  (exists r, plan currentGallons = Some r
             /\ NoDup (stop_ids (result_stops r)))
  /\ (forall st b st',
        body st = (b, st') -> commits b = true ->
        exists stop,
          stops st' = stops st ++ [stop]
          /\ (id (stop_station stop) ∉ usedStations st)
          /\ id (stop_station stop) ∈ usedStations st')
  /\ (forall lo hi stations (used : gset string) (s : Station),
        (findBestStationInRange lo hi stations used = Some s
         \/ findClosestReachableStation lo hi stations used = Some s
         \/ findAnyReachableStation lo hi stations used = Some s) ->
        id s ∉ used).
Proof.
  intros Hmpg. split; [|split].
  - destruct (simulate_total currentGallons) as (final & trace & Hrun & _).
    exists (finish routeData tankSize mpg final).
    split; [apply (calculateFuelStops_simulate _ _ _ Hrun)|]. simpl.
    unfold simulate in Hrun.
    refine (proj1 (while_loop_ind routeData stationsAlongRoute tankSize mpg
              (fun st => NoDup (stop_ids (stops st))
                         /\ (forall x, x ∈ stop_ids (stops st) ->
                                       x ∈ usedStations st))
              (fun st => NoDup (stop_ids (stops st))
                         /\ (forall x, x ∈ stop_ids (stops st) ->
                                       x ∈ usedStations st))
              _ _ _ _ _ _ _ _ Hrun)).
    + intros st b st' Hinv _ Hb _. eapply pass_no_duplicates; eauto.
    + intros st b st' Hinv _ Hb _. eapply pass_no_duplicates; eauto.
    + auto.
    + simpl. split; [apply NoDup_nil_2 | intros x Hx; inversion Hx].
  - intros st b st' Hb Hc. apply loop_body_pass, pass_stops in Hb.
    destruct Hb as [(Hc' & _)|(_ & s & g & f & a & Hin & Hnot & -> & ->)];
      [congruence|].
    eexists. split; [reflexivity|]. simpl. split; [exact Hnot|].
    apply elem_of_union_l, elem_of_singleton. reflexivity.
  - intros lo hi stations used s [H|[H|H]].
    + apply findBestStationInRange_Some in H. tauto.
    + apply findClosestReachableStation_Some in H. tauto.
    + apply findAnyReachableStation_Some in H. tauto.
Qed.

(** *** Order of the stops *)

Lemma Math_max_0_nonpos (x : Q) : x <= 0 -> ~ 0 < Math_max 0 x.
Proof.
  intros Hx. destruct (Math_max_cases 0 x) as [[H ->]|[H ->]]; lra.
Qed.

(** Nothing is added at a station where the tank is already at the fill
    level. *)
Lemma fill_gallons_full (st : PlanState) (fillTo : Q) (s : Station) :
  0 < mpg ->
  distanceFromStart s <= currentPosition st ->
  currentPosition st <= distanceFromStart s ->
  fillTo <= currentFuel st ->
  ~ 0 < fill_gallons mpg st fillTo s.
Proof.
  intros Hmpg H1 H2 Hf. unfold fill_gallons.
  apply Math_max_0_nonpos, Math_round_nonpos.
  unfold arrival_fuel.
  assert (E : (distanceFromStart s - currentPosition st) / mpg == 0).
  { assert (E0 : distanceFromStart s - currentPosition st == 0) by lra.
    rewrite E0. field. lra. }
  rewrite E. lra.
Qed.

(** The order invariant at the head of the loop: the stops are numbered
    from 1, their positions increase strictly and none lies beyond the
    current position, and once a stop has been made the tank is full. *)
Lemma pass_order (st st' : PlanState) (b : Branch) :
  0 < mpg ->
  body st = (b, st') ->
  stop_numbers (stops st) = seq 1 (length (stops st))
  /\ neighbours Qlt (stop_positions (stops st))
  /\ (forall p, p ∈ stop_positions (stops st) -> p <= currentPosition st)
  /\ (stops st <> [] -> currentFuel st == tankSize) ->
  stop_numbers (stops st') = seq 1 (length (stops st'))
  /\ neighbours Qlt (stop_positions (stops st'))
  /\ (exits b = false ->
      (forall p, p ∈ stop_positions (stops st') -> p <= currentPosition st')
      /\ (stops st' <> [] -> currentFuel st' == tankSize)).
Proof.
  intros Hmpg Hb (Hnum & Hinc & Hpos & Hfull).
  apply loop_body_pass in Hb.
  assert (Hpush : forall (s : Station) g f a,
             currentPosition st < distanceFromStart s
             \/ (stops st = [] /\ currentPosition st <= distanceFromStart s) ->
             stop_numbers (stops st ++
               [createStopFromStation (S (length (stops st))) s g f a])
             = seq 1 (length (stops st ++
                 [createStopFromStation (S (length (stops st))) s g f a]))
             /\ neighbours Qlt (stop_positions (stops st ++
                  [createStopFromStation (S (length (stops st))) s g f a]))
             /\ (forall p, p ∈ stop_positions (stops st ++
                   [createStopFromStation (S (length (stops st))) s g f a]) ->
                 p <= distanceFromStart s)).
  { intros s g f a Hs. split; [|split].
    - unfold stop_numbers in *. rewrite map_app, length_app, seq_app, Hnum.
      reflexivity.
    - unfold stop_positions in *. rewrite map_app. simpl.
      apply neighbours_snoc; [exact Hinc|].
      intros y Hy. destruct Hs as [Hs|[Hs _]].
      + apply last_Some_elem_of, Hpos in Hy. lra.
      + rewrite Hs in Hy. discriminate.
    - unfold stop_positions in *. rewrite map_app. simpl.
      intros p Hp. apply elem_of_app in Hp. destruct Hp as [Hp|Hp].
      + apply Hpos in Hp. destruct Hs as [Hs|[_ Hs]]; lra.
      + apply list_elem_of_singleton in Hp. subst p. lra. }
  destruct Hb; simpl.
  - (* BorderStop *)
    destruct (Hpush s (fill_gallons mpg st tankSize s) tankSize
                (arrival_fuel mpg st s)) as (N & I & P); [left; lra|].
    split; [exact N|]. split; [exact I|]. intros _. split; [exact P|].
    intros _. reflexivity.
  - (* DestinationReached *)
    split; [exact Hnum|]. split; [exact Hinc|]. discriminate.
  - (* NearMissStop *)
    match goal with H : findBestStationInRange _ _ _ _ = Some _ |- _ =>
      apply findBestStationInRange_Some in H; destruct H as (_ & _ & Hlo & _) end.
    destruct (Hpush s (fill_gallons mpg st fillTo s) fillTo
                (arrival_fuel mpg st s)) as (N & I & P).
    { destruct (stops st) as [|x l] eqn:El; [right; auto|]. left.
      destruct (Qlt_le_dec (currentPosition st) (distanceFromStart s))
        as [Hlt|Hle]; [exact Hlt|].
      exfalso. apply (fill_gallons_full st fillTo s); try assumption.
      assert (Hf : currentFuel st == tankSize) by (apply Hfull; discriminate).
      lra. }
    split; [exact N|]. split; [exact I|]. discriminate.
  - (* NearMissNoStop *)
    split; [exact Hnum|]. split; [exact Hinc|]. discriminate.
  - (* ExpandedStop *)
    match goal with H : findAnyReachableStation _ _ _ _ = Some _ |- _ =>
      apply findAnyReachableStation_Some in H; destruct H as (_ & _ & Hlt & _) end.
    destruct (Hpush s (Math_round (tankSize - Math_max 0 (arrival_fuel mpg st s)))
                tankSize (Math_max 0 (arrival_fuel mpg st s)))
      as (N & I & P); [left; exact Hlt|].
    split; [exact N|]. split; [exact I|]. intros _. split; [exact P|].
    intros _. reflexivity.
  - (* NoReachableStation *)
    split; [exact Hnum|]. split; [exact Hinc|]. discriminate.
  - (* ReserveDiscard *)
    split; [exact Hnum|]. split; [exact Hinc|]. intros _. split; assumption.
  - (* StandardStop *)
    match goal with H : findBestStationInRange _ _ _ _ = Some _ |- _ =>
      apply findBestStationInRange_Some in H; destruct H as (_ & _ & Hlo & _) end.
    destruct (Hpush s (fill_gallons mpg st tankSize s) tankSize
                (arrival_fuel mpg st s)) as (N & I & P); [left; lra|].
    split; [exact N|]. split; [exact I|]. intros _. split; [exact P|].
    intros _. reflexivity.
Qed.

(** C9. The stops that are returned are numbered 1, 2, 3, ... without a
    gap, and each lies strictly further along the route than the one
    before, the stop of the near-miss path included (its window starts at
    the current position, but a station at the position of the stop just
    made would take no fuel and is not committed). *)
Theorem monotonic_progress (currentGallons : Q) :
  0 < mpg ->
  exists r,
    plan currentGallons = Some r
    /\ stop_numbers (result_stops r) = seq 1 (length (result_stops r))
    /\ neighbours Qlt (stop_positions (result_stops r)).
Proof.
  intros Hmpg.
  destruct (simulate_total currentGallons) as (final & trace & Hrun & _).
  exists (finish routeData tankSize mpg final).
  split; [apply (calculateFuelStops_simulate _ _ _ Hrun)|]. simpl.
  unfold simulate in Hrun.
  refine (while_loop_ind routeData stationsAlongRoute tankSize mpg
            (fun st =>
               stop_numbers (stops st) = seq 1 (length (stops st))
               /\ neighbours Qlt (stop_positions (stops st))
               /\ (forall p, p ∈ stop_positions (stops st) ->
                             p <= currentPosition st)
               /\ (stops st <> [] -> currentFuel st == tankSize))
            (fun st =>
               stop_numbers (stops st) = seq 1 (length (stops st))
               /\ neighbours Qlt (stop_positions (stops st)))
            _ _ _ _ _ _ _ _ Hrun).
  - intros st b st' Hinv _ Hb He.
    destruct (pass_order _ _ _ Hmpg Hb Hinv) as (N & I & R).
    destruct (R He). auto.
  - intros st b st' Hinv _ Hb He.
    destruct (pass_order _ _ _ Hmpg Hb Hinv) as (N & I & R). auto.
  - intros st (N & I & _). auto.
  - simpl. split; [reflexivity|]. split; [constructor|].
    split; [intros p Hp; inversion Hp | intros H; congruence].
Qed.

(** *** Fuel on arrival *)

(** A station within the usable range is reached with the reserve, or with
    all the fuel there is when that is less. *)
Lemma arrival_within_usable_range (st : PlanState) (s : Station) :
  0 < mpg ->
  distanceFromStart s - currentPosition st <= usableRange mpg st ->
  (0 < distanceFromStart s - currentPosition st ->
   CONFIG.minArrivalGallons <= arrival_fuel mpg st s)
  /\ (0 <= currentFuel st -> 0 <= distanceFromStart s - currentPosition st ->
      0 <= arrival_fuel mpg st s).
Proof.
  intros Hmpg Hd. unfold usableRange in Hd. cbv zeta in Hd.
  unfold arrival_fuel, CONFIG.minArrivalGallons in *.
  set (d := distanceFromStart s - currentPosition st) in *.
  assert (Hdiv : d / mpg <= Math_max 0 (currentFuel st - 30)).
  { apply Qle_shift_div_r; assumption. }
  destruct (Math_max_cases 0 (currentFuel st - 30)) as [[H E]|[H E]];
    rewrite E in Hdiv, Hd.
  - split; intros; lra.
  - split.
    + intros Hpos. exfalso. rewrite Qmult_0_l in Hd. lra.
    + intros Hf Hpos.
      assert (E0 : d / mpg == 0).
      { assert (Ed : d == 0) by (rewrite Qmult_0_l in Hd; lra).
        rewrite Ed. field. lra. }
      lra.
Qed.

(** The fuel invariant: the tank is never negative and no stop records a
    negative arrival. *)
Lemma pass_arrival (st st' : PlanState) (b : Branch) :
  0 < mpg -> 0 <= tankSize ->
  body st = (b, st') ->
  0 <= currentFuel st
  /\ Forall (fun stop => 0 <= fuelRemaining stop) (stops st) ->
  0 <= currentFuel st'
  /\ Forall (fun stop => 0 <= fuelRemaining stop) (stops st').
Proof.
  intros Hmpg Htank Hb [Hfuel Hall]. apply loop_body_pass in Hb.
  assert (Hpush : forall (s : Station) g f a,
             0 <= a ->
             Forall (fun stop => 0 <= fuelRemaining stop)
               (stops st ++
                  [createStopFromStation (S (length (stops st))) s g f a])).
  { intros s g f a Ha. apply Forall_app. split; [exact Hall|].
    constructor; [|constructor]. simpl. apply toFixed1_nonneg, Ha. }
  destruct Hb; simpl; try (split; assumption).
  - split; [exact Htank|]. apply Hpush.
    destruct (arrival_within_usable_range st s Hmpg) as [H30 _]; [assumption|].
    unfold CONFIG.minArrivalGallons in H30. specialize (H30 ltac:(assumption)).
    lra.
  - split; [exact Hfuel|]. apply Hpush.
    match goal with H : findBestStationInRange _ _ _ _ = Some _ |- _ =>
      apply findBestStationInRange_Some in H;
      destruct H as (_ & _ & Hlo & Hhi) end.
    assert (Hd : distanceFromStart s - currentPosition st <= usableRange mpg st).
    { unfold finalSearchMax in Hhi.
      pose proof (Math_min_le_l (currentPosition st + usableRange mpg st)
                    (currentPosition st
                     + Math_max (usableRange mpg st * 0.85) 50)).
      lra. }
    destruct (arrival_within_usable_range st s Hmpg Hd) as [_ Hnn].
    apply Hnn; [exact Hfuel | lra].
  - split; [exact Htank|]. apply Hpush. apply Math_max_le_l.
  - split; [exact Htank|]. apply Hpush.
    unfold CONFIG.minArrivalGallons in *. lra.
Qed.

(** C2 (as amended). No stop that is returned records a negative fuel on
    arrival.  A stop committed for the station found by the first search of
    the standard path arrives with at least 30 gallons; when the simulated
    arrival is below 30 gallons the station is marked used and the pass
    ends with position, fuel and stops unchanged.  A stop committed from
    the expanded any-reachable search is not held to the 30 gallons: its
    recorded arrival is the simulated one clamped at zero. *)
Theorem arrival_reserve (currentGallons : Q) :
  0 < mpg -> 0 <= tankSize -> 0 <= currentGallons ->
  (exists r, plan currentGallons = Some r
             /\ Forall (fun stop => 0 <= fuelRemaining stop) (result_stops r))
  /\ (forall st st',
        body st = (StandardStop, st') ->
        exists (s : Station) stop,
          findBestStationInRange (currentPosition st + 20)
            (maxReachableDistance mpg st) stationsAlongRoute (usedStations st)
          = Some s
          /\ stops st' = stops st ++ [stop]
          /\ stop_station stop = s
          /\ CONFIG.minArrivalGallons <= arrival_fuel mpg st s
          /\ fuelRemaining stop = toFixed1 (arrival_fuel mpg st s)
          /\ CONFIG.minArrivalGallons <= fuelRemaining stop)
  /\ (forall st st',
        body st = (ReserveDiscard, st') ->
        exists s : Station,
          findBestStationInRange (currentPosition st + 20)
            (maxReachableDistance mpg st) stationsAlongRoute (usedStations st)
          = Some s
          /\ arrival_fuel mpg st s < CONFIG.minArrivalGallons
          /\ usedStations st' = {[ id s ]} ∪ usedStations st
          /\ stops st' = stops st
          /\ currentPosition st' = currentPosition st
          /\ currentFuel st' = currentFuel st)
  /\ (forall st st',
        body st = (ExpandedStop, st') ->
        exists (s : Station) stop,
          findAnyReachableStation (currentPosition st)
            (currentFuel st * mpg * 0.95) stationsAlongRoute (usedStations st)
          = Some s
          /\ stops st' = stops st ++ [stop]
          /\ stop_station stop = s
          /\ fuelRemaining stop = toFixed1 (Math_max 0 (arrival_fuel mpg st s))).
Proof.
  intros Hmpg Htank Hcg. split; [|split; [|split]].
  - destruct (simulate_total currentGallons) as (final & trace & Hrun & _).
    exists (finish routeData tankSize mpg final).
    split; [apply (calculateFuelStops_simulate _ _ _ Hrun)|]. simpl.
    unfold simulate in Hrun.
    refine (proj2 (while_loop_ind routeData stationsAlongRoute tankSize mpg
              (fun st => 0 <= currentFuel st
                         /\ Forall (fun stop => 0 <= fuelRemaining stop)
                                   (stops st))
              (fun st => 0 <= currentFuel st
                         /\ Forall (fun stop => 0 <= fuelRemaining stop)
                                   (stops st))
              _ _ _ _ _ _ _ _ Hrun)).
    + intros st b st' Hinv _ Hb _. eapply pass_arrival; eauto.
    + intros st b st' Hinv _ Hb _. eapply pass_arrival; eauto.
    + auto.
    + simpl. split; [exact Hcg | constructor].
  - intros st st' Hb. apply loop_body_pass in Hb. inversion Hb; subst.
    eexists. eexists. split; [eassumption|]. split; [reflexivity|]. simpl.
    split; [reflexivity|]. split; [assumption|]. split; [reflexivity|].
    apply toFixed1_reserve. assumption.
  - intros st st' Hb. apply loop_body_pass in Hb. inversion Hb; subst.
    eexists. split; [eassumption|]. split; [assumption|]. simpl. auto.
  - intros st st' Hb. apply loop_body_pass in Hb. inversion Hb; subst.
    eexists. eexists. split; [eassumption|]. split; [reflexivity|]. simpl.
    auto.
Qed.

(** *** The border rule *)

Lemma crossings_loop_before (hp : list string) (before : list Station)
    (prev : string) (rest : list Station) (c : Crossing) (s : Station) :
  ascending rest ->
  (forall b r : Station, b ∈ before -> r ∈ rest ->
                         distanceFromStart b <= distanceFromStart r) ->
  c ∈ crossings_loop hp before prev rest ->
  lastStationBeforeBorder c = Some s ->
  distanceFromStart s <= borderDistance c.
Proof.
  revert before prev.
  induction rest as [|x rest IH]; intros before prev Hasc Hbr Hc Hs.
  - inversion Hc.
  - simpl in Hc. apply elem_of_app in Hc. destruct Hc as [Hc|Hc].
    + destruct (includes hp (state x) && negb (includes hp prev));
        [|inversion Hc].
      apply list_elem_of_singleton in Hc. subst c. simpl in *.
      apply find_some in Hs. destruct Hs as [Hs _].
      apply Hbr; [apply list_elem_of_In, Hs | left].
    + apply StronglySorted_inv in Hasc. destruct Hasc as [Hasc Hx].
      apply (IH (x :: before) (state x)); try assumption.
      intros b r Hb Hr. apply elem_of_cons in Hb. destruct Hb as [->|Hb].
      * rewrite List.Forall_forall in Hx. apply Hx, list_elem_of_In, Hr.
      * apply Hbr; [exact Hb | right; exact Hr].
Qed.

(** On an ascending station list the last station before a border is not
    beyond the border. *)
Lemma findStateBorderCrossings_before (stations : list Station)
    (hp : list string) (c : Crossing) (s : Station) :
  ascending stations ->
  c ∈ findStateBorderCrossings stations hp ->
  lastStationBeforeBorder c = Some s ->
  distanceFromStart s <= borderDistance c.
Proof.
  unfold findStateBorderCrossings. intros Hasc Hc Hs.
  destruct stations as [|x [|y rest]]; [inversion Hc .. |].
  apply StronglySorted_inv in Hasc. destruct Hasc as [Hasc Hx].
  eapply crossings_loop_before; [exact Hasc | | exact Hc | exact Hs].
  intros b r Hb Hr. apply list_elem_of_singleton in Hb. subst b.
  rewrite List.Forall_forall in Hx. apply Hx, list_elem_of_In, Hr.
Qed.

(** The stops committed so far stay in front of the list to the end of the
    run. *)
Lemma while_loop_keeps_stops (n : nat) (st final : PlanState)
    (trace : list Branch) :
  loop n st = Some (final, trace) ->
  exists more, stops final = stops st ++ more.
Proof.
  intros Hrun.
  assert (Hstep : forall s b s',
             (exists more, stops s = stops st ++ more) ->
             body s = (b, s') -> exists more, stops s' = stops st ++ more).
  { intros s b s' [more Hm] Hb. apply loop_body_pass, pass_stops in Hb.
    destruct Hb as [(_ & -> & _)|(_ & x & g & f & a & _ & _ & -> & _)].
    - exists more. exact Hm.
    - rewrite Hm, <- app_assoc. eexists. reflexivity. }
  refine (while_loop_ind routeData stationsAlongRoute tankSize mpg
            (fun s => exists more, stops s = stops st ++ more)
            (fun s => exists more, stops s = stops st ++ more)
            _ _ _ _ _ _ _ _ Hrun).
  - intros s b s' Hinv _ Hb _. eapply Hstep; eauto.
  - intros s b s' Hinv _ Hb _. eapply Hstep; eauto.
  - auto.
  - exists []. rewrite app_nil_r. reflexivity.
Qed.

(** When the border block commits.  Take a pass of the loop in which the
    first border crossing of the list that lies ahead and whose last station
    before the border is set and unused has that station at a positive
    distance within the usable range, and in which the fill to a full tank
    rounds to at least one gallon.  Then the pass commits a stop at that station filled
    to tankSize, moves there with a full tank and goes round again, before
    the destination is looked at and whatever fuel would be left there; the
    stop stays in the plan that is returned.  On a station list that is
    ascending along the route the stop is not beyond the border. *)
Theorem border_priority_stop (st : PlanState) (c : Crossing) (s : Station) :
  0 < mpg ->
  nextBorderCrossing stationsAlongRoute st = Some c ->
  lastStationBeforeBorder c = Some s ->
  0 < distanceFromStart s - currentPosition st ->
  distanceFromStart s - currentPosition st <= usableRange mpg st ->
  0 < Math_round (tankSize - arrival_fuel mpg st s) ->
  exists stop,
    body st
    = (BorderStop,
       {| stops := stops st ++ [stop];
          currentFuel := tankSize;
          currentPosition := distanceFromStart s;
          usedStations := {[ id s ]} ∪ usedStations st |})
    /\ stop_station stop = s
    /\ fillAmount stop = Math_round tankSize
    /\ gallonsToAdd stop = Math_round (tankSize - arrival_fuel mpg st s)
    /\ borderDistance c > currentPosition st
    /\ (id s ∉ usedStations st)
    /\ (forall n final trace,
          ltb (currentPosition st) (totalDistance routeData) = true ->
          loop n st = Some (final, trace) -> stop ∈ stops final)
    /\ (ascending stationsAlongRoute ->
        distanceFromStart s <= borderDistance c).
Proof.
  intros Hmpg Hc Hl Hd1 Hd2 Hg.
  assert (Hgal : Math_max 0 (Math_round (tankSize - arrival_fuel mpg st s))
                 = Math_round (tankSize - arrival_fuel mpg st s)).
  { unfold Math_max.
    assert (E : leb 0 (Math_round (tankSize - arrival_fuel mpg st s)) = true)
      by (apply leb_true; lra).
    rewrite E. reflexivity. }
  assert (Hbody : body st
    = (BorderStop,
       advance (push_stop st s
                  (Math_round (tankSize - arrival_fuel mpg st s)) tankSize
                  (arrival_fuel mpg st s)) tankSize s)).
  { unfold loop_body, border_priority. rewrite Hc, Hl.
    assert (E1 : gtb (distanceFromStart s - currentPosition st) 0
                 && leb (distanceFromStart s - currentPosition st)
                        (usableRange mpg st) = true).
    { apply andb_true_iff. split; [apply ltb_true | apply leb_true]; assumption. }
    rewrite E1. cbv zeta.
    change (currentFuel st - (distanceFromStart s - currentPosition st) / mpg)
      with (arrival_fuel mpg st s).
    rewrite Hgal.
    assert (E2 : gtb (Math_round (tankSize - arrival_fuel mpg st s)) 0 = true)
      by (apply ltb_true; assumption).
    rewrite E2. reflexivity. }
  pose proof Hc as Hfind. unfold nextBorderCrossing in Hfind.
  apply find_some in Hfind. destruct Hfind as [Hin Hpend].
  unfold border_pending in Hpend. rewrite Hl in Hpend. js_tests.
  eexists. split; [exact Hbody|]. simpl.
  split; [reflexivity|]. split; [reflexivity|]. split; [reflexivity|].
  split; [assumption|]. split; [assumption|]. split.
  - intros n final trace Hw Hrun.
    destruct n as [|n]; simpl in Hrun; rewrite Hw in Hrun; [discriminate|].
    rewrite Hbody in Hrun. simpl in Hrun.
    destruct (loop n _) as [[f t]|] eqn:E; [|discriminate].
    injection Hrun as <- <-.
    apply while_loop_keeps_stops in E. destruct E as [more ->]. simpl.
    apply elem_of_app. left. apply elem_of_app. right. left.
  - intros Hasc.
    eapply findStateBorderCrossings_before;
      [exact Hasc | apply list_elem_of_In, Hin | exact Hl].
Qed.

End RunFacts.

(** ** findStationsAlongRoute *)

Section CorridorFacts.
Variable haversineDistance : Q -> Q -> Q -> Q -> Q.

Local Abbreviation dist_to station c :=
  (haversineDistance (lat station) (lng station) (fst c) (snd c)).

(** The scan from a running minimum [m0] found at [c0]: it keeps the
    minimum when nothing closer follows, and otherwise ends on the first of
    the closest points that follow. *)
Lemma closest_scan_Some (station : StationData) (coords : list (Q * Q))
    (i : nat) (m0 : Q) (c0 : nat) :
  exists m c,
    closest_scan haversineDistance station coords i (Some m0) c0 = (Some m, c)
    /\ (forall j cj, coords !! j = Some cj -> m <= dist_to station cj)
    /\ ((m = m0 /\ c = c0)
        \/ (m < m0
            /\ exists k ck,
                 c = (i + k)%nat /\ coords !! k = Some ck
                 /\ m = dist_to station ck
                 /\ (forall j cj, (j < k)%nat -> coords !! j = Some cj ->
                                  m < dist_to station cj))).
Proof.
  revert i m0 c0. induction coords as [|x rest IH]; intros i m0 c0; simpl.
  - exists m0, c0. split; [reflexivity|]. split; [|left; auto].
    intros j cj Hj. destruct j; discriminate.
  - destruct (ltb (dist_to station x) m0) eqn:E; js_tests.
    + destruct (IH (S i) (dist_to station x) i) as (m & c & Hscan & Hmin & Hcase).
      exists m, c. split; [exact Hscan|].
      assert (Hmx : m <= dist_to station x).
      { destruct Hcase as [[-> _]|[Hlt _]]; lra. }
      split.
      * intros j cj Hj. destruct j as [|j]; simpl in Hj.
        -- injection Hj as <-. exact Hmx.
        -- eapply Hmin, Hj.
      * right. split; [lra|].
        destruct Hcase as [[-> ->]|(Hlt & k & ck & -> & Hk & Hm & Hfirst)].
        -- exists 0%nat, x. split; [lia|]. split; [reflexivity|].
           split; [reflexivity|]. intros j cj Hj. lia.
        -- exists (S k), ck. split; [lia|]. split; [exact Hk|].
           split; [exact Hm|]. intros j cj Hj Hcj.
           destruct j as [|j]; simpl in Hcj.
           ++ injection Hcj as <-. exact Hlt.
           ++ apply (Hfirst j); [lia | exact Hcj].
    + destruct (IH (S i) m0 c0) as (m & c & Hscan & Hmin & Hcase).
      exists m, c. split; [exact Hscan|].
      split.
      * intros j cj Hj. destruct j as [|j]; simpl in Hj.
        -- injection Hj as <-. destruct Hcase as [[-> _]|[Hlt _]]; lra.
        -- eapply Hmin, Hj.
      * destruct Hcase as [Hsame|(Hlt & k & ck & -> & Hk & Hm & Hfirst)];
          [left; exact Hsame | right].
        split; [exact Hlt|].
        exists (S k), ck. split; [lia|]. split; [exact Hk|].
        split; [exact Hm|]. intros j cj Hj Hcj.
        destruct j as [|j]; simpl in Hcj.
        -- injection Hcj as <-. lra.
        -- apply (Hfirst j); [lia | exact Hcj].
Qed.

(** The whole scan finds the nearest point of a polyline that is not
    empty. *)
Lemma closest_scan_nearest (station : StationData) (coords : list (Q * Q)) :
  coords <> [] ->
  exists m i,
    closest_scan haversineDistance station coords 0 None 0 = (Some m, i)
    /\ nearest_point haversineDistance station coords i m.
Proof.
  destruct coords as [|x rest]; [congruence|]. intros _. simpl.
  destruct (closest_scan_Some station rest 1 (dist_to station x) 0)
    as (m & c & Hscan & Hmin & Hcase).
  exists m, c. split; [exact Hscan|]. unfold nearest_point.
  destruct Hcase as [[-> ->]|(Hlt & k & ck & -> & Hk & Hm & Hfirst)].
  - split; [exists x; auto|]. split.
    + intros j cj Hj. destruct j as [|j]; simpl in Hj.
      * injection Hj as <-. lra.
      * eapply Hmin, Hj.
    + intros j cj Hj. lia.
  - split; [exists ck; auto|]. split.
    + intros j cj Hj. destruct j as [|j]; simpl in Hj.
      * injection Hj as <-. lra.
      * eapply Hmin, Hj.
    + intros j cj Hj Hcj. destruct j as [|j]; simpl in Hcj.
      * injection Hcj as <-. exact Hlt.
      * apply (Hfirst j); [lia | exact Hcj].
Qed.

(** A station is pushed exactly when its nearest route point is within the
    buffer, annotated from that point. *)
Lemma annotate_spec (routeData : RouteData) (station : StationData) :
  match annotate haversineDistance routeData station with
  | Some s =>
      exists i m,
        nearest_point haversineDistance station (coordinates routeData) i m
        /\ m <= routeBuffer
        /\ s = annotated routeData station i m
  | None =>
      coordinates routeData = []
      \/ exists i m,
           nearest_point haversineDistance station (coordinates routeData) i m
           /\ routeBuffer < m
  end.
Proof.
  unfold annotate.
  destruct (coordinates routeData) as [|x rest] eqn:Ec.
  { simpl. left. reflexivity. }
  destruct (closest_scan_nearest station (x :: rest)) as (m & i & Hscan & Hn);
    [discriminate|].
  rewrite Hscan.
  destruct (leb m routeBuffer) eqn:E; js_tests.
  - exists i, m. split; [exact Hn|]. split; [exact E|].
    unfold annotated. rewrite Ec. reflexivity.
  - right. exists i, m. auto.
Qed.

Lemma corridor_compare_neg (a b : Station) :
  corridor_compare b a == - corridor_compare a b.
Proof.
  unfold corridor_compare, Math_abs.
  destruct (ltb (distanceFromStart a - distanceFromStart b) 0) eqn:E1;
    destruct (ltb (distanceFromStart b - distanceFromStart a) 0) eqn:E2;
    js_tests;
    repeat match goal with
    | |- context [ltb ?x ?y] =>
        let E := fresh "E" in destruct (ltb x y) eqn:E
    end; js_tests; lra.
Qed.

Lemma corridor_compare_refl (a : Station) : corridor_compare a a == 0.
Proof.
  unfold corridor_compare.
  destruct (ltb (Math_abs (distanceFromStart a - distanceFromStart a)) 5);
    ring.
Qed.

Lemma corridor_compare_flip (a b : Station) :
  corridor_compare a b < 0 <-> 0 < corridor_compare b a.
Proof. rewrite (corridor_compare_neg a b). split; intros H; lra. Qed.

(** Two stations the comparator does not put the wrong way round are in
    the order of [corridor_order]. *)
Lemma corridor_compare_order (a b : Station) :
  corridor_compare a b <= 0 -> corridor_order a b.
Proof.
  intros Hle. unfold corridor_compare, corridor_order in *.
  destruct (ltb (Math_abs (distanceFromStart a - distanceFromStart b)) 5) eqn:E;
    js_tests.
  - left. split; [exact E | lra].
  - right. unfold Math_abs in E.
    destruct (ltb (distanceFromStart a - distanceFromStart b) 0) eqn:E1;
      js_tests; lra.
Qed.

Lemma far_apart_sym (a b : Station) : far_apart a b -> far_apart b a.
Proof.
  unfold far_apart, Math_abs.
  destruct (ltb (distanceFromStart a - distanceFromStart b) 0) eqn:E1;
    destruct (ltb (distanceFromStart b - distanceFromStart a) 0) eqn:E2;
    js_tests; lra.
Qed.

Lemma far_apart_irrefl (a : Station) : ~ far_apart a a.
Proof.
  unfold far_apart, Math_abs.
  destruct (ltb (distanceFromStart a - distanceFromStart a) 0) eqn:E;
    js_tests; lra.
Qed.

(** Between stations 5 or more apart the comparator is the difference of
    the distances from the start. *)
Lemma far_apart_compare (a b : Station) :
  far_apart a b ->
  corridor_compare a b = distanceFromStart a - distanceFromStart b.
Proof.
  unfold far_apart, corridor_compare. intros H.
  destruct (ltb (Math_abs (distanceFromStart a - distanceFromStart b)) 5) eqn:E;
    js_tests; [lra | reflexivity].
Qed.

Lemma far_apart_order (a b : Station) :
  far_apart a b -> corridor_order a b ->
  distanceFromStart a + 5 <= distanceFromStart b.
Proof.
  unfold far_apart, corridor_order. intros H [[H1 _]|H1]; [lra | exact H1].
Qed.

Lemma pairs_far_apart (l : list Station) (a b : Station) :
  ForallOrdPairs far_apart l -> a ∈ l -> b ∈ l -> a = b \/ far_apart a b.
Proof.
  intros Hl Ha Hb. apply list_elem_of_In in Ha, Hb.
  destruct (ForallOrdPairs_In Hl a b Ha Hb) as [H|[H|H]]; auto.
  right. apply far_apart_sym, H.
Qed.

Lemma pairs_far_apart_NoDup (l : list Station) :
  ForallOrdPairs far_apart l -> NoDup l.
Proof.
  induction 1 as [|a l Ha Hl IH]; [constructor|].
  constructor; [|exact IH].
  intros Hin. rewrite List.Forall_forall in Ha.
  apply (far_apart_irrefl a), Ha, list_elem_of_In, Hin.
Qed.

(** The comparator is consistent on stations that are pairwise 5 or more
    apart: there it is the order of the distances from the start. *)
Lemma far_apart_consistent (l : list Station) :
  ForallOrdPairs far_apart l -> consistent corridor_compare l.
Proof.
  intros Hl. split; [intros a b _ _; apply corridor_compare_flip|].
  intros a b c Ha Hb Hc Hab Hbc.
  destruct (pairs_far_apart l a b Hl Ha Hb) as [->|Fab]; [exact Hbc|].
  destruct (pairs_far_apart l b c Hl Hb Hc) as [->|Fbc]; [exact Hab|].
  destruct (pairs_far_apart l a c Hl Ha Hc) as [->|Fac].
  { pose proof (corridor_compare_refl c). lra. }
  rewrite (far_apart_compare _ _ Fab) in Hab.
  rewrite (far_apart_compare _ _ Fbc) in Hbc.
  rewrite (far_apart_compare _ _ Fac). lra.
Qed.

(** The comparator is consistent on one or two stations. *)
Lemma few_consistent (l : list Station) :
  (length l <= 2)%nat -> consistent corridor_compare l.
Proof.
  intros Hlen. split; [intros a b _ _; apply corridor_compare_flip|].
  assert (Hsame : forall a b c : Station,
             a ∈ l -> b ∈ l -> c ∈ l -> a = b \/ b = c \/ a = c).
  { destruct l as [|x [|y [|z l]]]; simpl in Hlen; [| | |lia];
      intros a b c Ha Hb Hc;
      repeat match goal with
      | H : _ ∈ [] |- _ => apply elem_of_nil in H; destruct H
      | H : _ ∈ _ :: _ |- _ => apply elem_of_cons in H; destruct H as [->|H]
      end; auto. }
  intros a b c Ha Hb Hc Hab Hbc.
  destruct (Hsame a b c Ha Hb Hc) as [->|[->| ->]];
    [exact Hbc | exact Hab |].
  pose proof (corridor_compare_refl c). lra.
Qed.

Lemma sorted_corridor_order (l : list Station) :
  sorted corridor_compare l -> StronglySorted corridor_order l.
Proof.
  unfold sorted. induction 1 as [|a l Hs IH Ha]; constructor; [exact IH|].
  eapply List.Forall_impl; [|exact Ha].
  intros b Hb. apply corridor_compare_order, Hb.
Qed.

(** A list in the order of [corridor_order] whose stations are pairwise 5
    or more apart is strictly ascending along the route. *)
Lemma far_apart_ascending (l : list Station) :
  NoDup l -> (forall a b, a ∈ l -> b ∈ l -> a = b \/ far_apart a b) ->
  StronglySorted corridor_order l ->
  StronglySorted
    (fun a b : Station => distanceFromStart a + 5 <= distanceFromStart b) l.
Proof.
  intros Hnd Hfar Hs. induction Hs as [|a l Hs IH Ha]; constructor.
  - apply IH.
    + apply NoDup_cons in Hnd. tauto.
    + intros x y Hx Hy. apply Hfar; right; assumption.
  - apply Forall_forall. intros b Hb.
    rewrite Forall_forall in Ha.
    apply far_apart_order; [|apply Ha, Hb].
    destruct (Hfar a b) as [->|H]; [left | right; exact Hb | | exact H].
    apply NoDup_cons in Hnd. tauto.
Qed.

Section AnySort.

(** The sort of the engine: any function that keeps the contract of
    [Array.prototype.sort]. *)
Variable sort : (Station -> Station -> Q) -> list Station -> list Station.
Hypothesis sort_spec : sort_contract sort.

(** C8 (as amended). On a polyline that is not a single point, and with
    whatever sort the engine has, the corridor filter returns a permutation
    of the stations whose nearest route point is within 3 units, each
    annotated with distanceFromStart = index of the first nearest point /
    (point count - 1) x route distance and distanceFromRoute = the distance
    to that point.  Its comparator puts two stations less than 5 units
    apart along the route in ascending distanceFromRoute and two stations 5
    or more apart in ascending distanceFromStart.  Whenever that comparator
    is consistent on the retained stations, every two stations of the
    result are in that order; it is consistent when at most two stations
    are retained, and when every two of them are 5 or more apart, in which
    case the result is strictly ascending in distanceFromStart.  An empty
    station list or an empty polyline gives an empty list. *)
Theorem corridor_filter (dataset : list StationData) (routeData : RouteData) :
  length (coordinates routeData) <> 1%nat ->
  findStationsAlongRoute_with haversineDistance sort dataset routeData
    ≡ₚ omap (annotate haversineDistance routeData) dataset
  /\ (forall station,
        match annotate haversineDistance routeData station with
        | Some s =>
            exists i m,
              nearest_point haversineDistance station (coordinates routeData) i m
              /\ m <= 3
              /\ s = annotated routeData station i m
        | None =>
            coordinates routeData = []
            \/ exists i m,
                 nearest_point haversineDistance station
                   (coordinates routeData) i m
                 /\ 3 < m
        end)
  /\ (consistent corridor_compare
        (omap (annotate haversineDistance routeData) dataset) ->
      StronglySorted corridor_order
        (findStationsAlongRoute_with haversineDistance sort dataset routeData))
  /\ ((length (omap (annotate haversineDistance routeData) dataset) <= 2)%nat ->
      StronglySorted corridor_order
        (findStationsAlongRoute_with haversineDistance sort dataset routeData))
  /\ (ForallOrdPairs far_apart
        (omap (annotate haversineDistance routeData) dataset) ->
      StronglySorted
        (fun a b : Station => distanceFromStart a + 5 <= distanceFromStart b)
        (findStationsAlongRoute_with haversineDistance sort dataset routeData))
  /\ (dataset = [] \/ coordinates routeData = [] ->
      findStationsAlongRoute_with haversineDistance sort dataset routeData = []).
Proof.
  intros _.
  set (kept := omap (annotate haversineDistance routeData) dataset).
  set (result :=
         findStationsAlongRoute_with haversineDistance sort dataset routeData).
  assert (Hperm : result ≡ₚ kept).
  { unfold result, kept, findStationsAlongRoute_with.
    destruct dataset; [reflexivity|]. apply sort_spec. }
  assert (Hsorted : consistent corridor_compare kept ->
                    StronglySorted corridor_order result).
  { intros Hc. unfold result, findStationsAlongRoute_with.
    destruct dataset; [constructor|].
    apply sorted_corridor_order, sort_spec, Hc. }
  split; [exact Hperm|]. split; [intros station; apply annotate_spec|].
  split; [exact Hsorted|].
  split; [intros Hlen; apply Hsorted, few_consistent, Hlen|].
  split.
  - intros Hfar. apply far_apart_ascending.
    + rewrite Hperm. apply pairs_far_apart_NoDup, Hfar.
    + intros a b Ha Hb. rewrite Hperm in Ha, Hb.
      apply (pairs_far_apart kept); assumption.
    + apply Hsorted, far_apart_consistent, Hfar.
  - intros [->|Hc]; [reflexivity|].
    assert (E : kept = []).
    { unfold kept. generalize dataset. intros l.
      induction l as [|y l IH]; [reflexivity|]. simpl.
      unfold annotate at 1. rewrite Hc. simpl. exact IH. }
    apply Permutation_nil_r. rewrite <- E. exact Hperm.
Qed.

End AnySort.

(** In a list sorted for a relation, an element at an earlier index is
    related to every element at a later index. *)
Lemma StronglySorted_indices {A : Type} (R : A -> A -> Prop) (l : list A)
    (i j : nat) (x y : A) :
  StronglySorted R l -> l !! i = Some x -> l !! j = Some y -> (i < j)%nat ->
  R x y.
Proof.
  intros Hs. revert i j. induction Hs as [|a l Hs IH Ha]; intros i j Hi Hj Hij.
  - discriminate.
  - destruct j as [|j]; [lia|]. simpl in Hj.
    destruct i as [|i]; simpl in Hi.
    + injection Hi as <-. rewrite Forall_forall in Ha.
      apply Ha. eapply list_elem_of_lookup_2, Hj.
    + apply (IH i j); [assumption | assumption | lia].
Qed.

(** Three distinct elements that a relation orders in a cycle, each pair
    one way only, cannot be arranged in a list sorted for it. *)
Lemma cycle_not_sorted {A : Type} (R : A -> A -> Prop) (a b c : A)
    (l : list A) :
  ~ R a b -> ~ R b c -> ~ R c a -> a <> b -> b <> c -> c <> a ->
  l ≡ₚ [a; b; c] -> ~ StronglySorted R l.
Proof.
  intros Hab Hbc Hca Nab Nbc Nca Hp Hs.
  assert (Ha : a ∈ l) by (rewrite Hp; set_solver).
  assert (Hb : b ∈ l) by (rewrite Hp; set_solver).
  assert (Hc : c ∈ l) by (rewrite Hp; set_solver).
  apply list_elem_of_lookup in Ha, Hb, Hc.
  destruct Ha as [ia Ha]. destruct Hb as [ib Hb]. destruct Hc as [ic Hc].
  assert (Lab : (ib < ia)%nat).
  { destruct (lt_eq_lt_dec ia ib) as [[H|H]|H]; [| |exact H].
    - destruct Hab. apply (StronglySorted_indices R l ia ib); assumption.
    - subst ib. congruence. }
  assert (Lbc : (ic < ib)%nat).
  { destruct (lt_eq_lt_dec ib ic) as [[H|H]|H]; [| |exact H].
    - destruct Hbc. apply (StronglySorted_indices R l ib ic); assumption.
    - subst ic. congruence. }
  assert (Lca : (ia < ic)%nat).
  { destruct (lt_eq_lt_dec ic ia) as [[H|H]|H]; [| |exact H].
    - destruct Hca. apply (StronglySorted_indices R l ic ia); assumption.
    - subst ic. congruence. }
  lia.
Qed.

End CorridorFacts.

(** ** Concrete runs *)

Lemma degenerate_route_witness :
  exists r,
    calculateFuelStops (Scenarios.route 0) [] 100 7 80 = Some r
    /\ result_stops r = []
    /\ finalFuel r == Math_max (targetFuelAtDestination 100) 80
    /\ (targetFuelAtDestination 100 <= 80 -> finalFuel r == 80).
Proof.
  apply (degenerate_route (Scenarios.route 0) [] 100 7 80);
    vm_compute; reflexivity.
Defined.

(** On a route of length zero with a half-full tank the estimate returned
    is the target, 75 gallons, not the 50 gallons in the tank. *)
Lemma degenerate_route_reports_target :
  exists r,
    calculateFuelStops (Scenarios.route 0) [] 100 7 50 = Some r
    /\ result_stops r = []
    /\ finalFuel r == 75
    /\ ~ finalFuel r == 50.
Proof.
  eexists. split; [vm_compute; reflexivity|].
  split; [reflexivity|]. split; [reflexivity|]. discriminate.
Defined.

Lemma failure_halt_result_witness :
  fuelAtDestination (Scenarios.route 700) 7 (initial_state 10) < 0
  /\ calculateFuelStops (Scenarios.route 700) [] 100 7 10
     = Some {| result_stops := []; finalFuel := targetFuelAtDestination 100 |}.
Proof.
  apply (failure_halt_result (Scenarios.route 700) [] 100 7 10
           (initial_state 10) [NoReachableStation]);
    vm_compute; reflexivity.
Defined.

(** A run that ends because the destination is reached and a run that halts
    with no reachable station both return an empty stop list and 75 gallons:
    the returned record does not tell them apart. *)
Lemma failure_halt_looks_like_success :
  exists ok halted,
    Scenarios.comfortable = Some (initial_state 100, [DestinationReached])
    /\ Scenarios.stranded = Some (initial_state 10, [NoReachableStation])
    /\ calculateFuelStops (Scenarios.route 175) [] 100 7 100 = Some ok
    /\ calculateFuelStops (Scenarios.route 700) [] 100 7 10 = Some halted
    /\ result_stops ok = result_stops halted
    /\ finalFuel ok == finalFuel halted.
Proof.
  eexists. eexists.
  split; [vm_compute; reflexivity|]. split; [vm_compute; reflexivity|].
  split; [vm_compute; reflexivity|]. split; [vm_compute; reflexivity|].
  split; reflexivity.
Defined.



Lemma no_duplicate_stops_witness :
  exists r,
    calculateFuelStops (Scenarios.route 1400) Scenarios.long_haul 150 7 100
    = Some r
    /\ NoDup (stop_ids (result_stops r)).
Proof.
  destruct (no_duplicate_stops (Scenarios.route 1400) Scenarios.long_haul
              150 7 100) as [H _]; [reflexivity | exact H].
Defined.

Lemma monotonic_progress_witness :
  exists r,
    calculateFuelStops (Scenarios.route 1400) Scenarios.long_haul 150 7 100
    = Some r
    /\ stop_numbers (result_stops r) = seq 1 (length (result_stops r))
    /\ neighbours Qlt (stop_positions (result_stops r)).
Proof.
  apply (monotonic_progress (Scenarios.route 1400) Scenarios.long_haul
           150 7 100).
  reflexivity.
Defined.

Lemma arrival_reserve_witness :
  exists r,
    calculateFuelStops (Scenarios.route 1400) Scenarios.long_haul 150 7 100
    = Some r
    /\ Forall (fun stop => 0 <= fuelRemaining stop) (result_stops r).
Proof.
  destruct (arrival_reserve (Scenarios.route 1400) Scenarios.long_haul
              150 7 100) as [H _];
    [reflexivity | discriminate | discriminate | exact H].
Defined.

(** With 40 gallons at 7 mpg and the only station 250 miles ahead, the
    first search of the standard path finds nothing, the expanded search
    finds the station, and the stop is committed with 4.3 gallons on
    arrival, far below the 30 gallon reserve. *)
Lemma expanded_stop_below_reserve :
  exists st' stop r,
    loop_body (Scenarios.route 1000) Scenarios.far_station 100 7
      (initial_state 40) = (ExpandedStop, st')
    /\ stops st' = [stop]
    /\ arrival_fuel 7 (initial_state 40) (stop_station stop)
       < CONFIG.minArrivalGallons
    /\ fuelRemaining stop == 4.3
    /\ fuelRemaining stop < CONFIG.minArrivalGallons
    /\ calculateFuelStops (Scenarios.route 1000) Scenarios.far_station 100 7 40
       = Some r
    /\ result_stops r = [stop].
Proof.
  eexists. eexists. eexists.
  split; [vm_compute; reflexivity|].
  split; [reflexivity|].
  split; [reflexivity|].
  split; [reflexivity|].
  split; [reflexivity|].
  split; [vm_compute; reflexivity | reflexivity].
Defined.

(** The spec's border scenario: the vehicle could reach the destination 200
    miles away with 121 gallons, above the target of 112.5, and still stops
    at mile 90 to fill up before the border at mile 100. *)
Lemma border_priority_stop_witness :
  exists stop st',
    loop_body (Scenarios.route 200) Scenarios.before_border 150 7
      (initial_state 150) = (BorderStop, st')
    /\ stops st' = [stop]
    /\ stop_station stop = Scenarios.nevada_exit
    /\ fillAmount stop == 150
    /\ gallonsToAdd stop == 13
    /\ currentFuel st' = 150
    /\ currentPosition st' = 90
    /\ targetFuelAtDestination 150
       <= fuelAtDestination (Scenarios.route 200) 7 (initial_state 150).
Proof.
  destruct (border_priority_stop (Scenarios.route 200) Scenarios.before_border
              150 7 (initial_state 150) Scenarios.california_border
              Scenarios.nevada_exit)
    as (stop & Hb & Hs & Hf & Hg & _).
  - reflexivity.
  - vm_compute. reflexivity.
  - reflexivity.
  - reflexivity.
  - vm_compute. discriminate.
  - reflexivity.
  - exists stop. eexists. split; [exact Hb|]. simpl.
    split; [reflexivity|]. split; [exact Hs|].
    rewrite Hf, Hg. split; [reflexivity|]. split; [reflexivity|].
    split; [reflexivity|]. split; [reflexivity|].
    vm_compute. discriminate.
Defined.

(** The last station before the border is one mile ahead, unused and well
    within range, but the full tank would take less than half a gallon
    there: no stop is committed, the pass goes on to the destination check
    and the run ends without any stop. *)
Lemma border_stop_skipped_on_full_tank :
  exists c s r,
    nextBorderCrossing Scenarios.border_at_start (initial_state 100) = Some c
    /\ lastStationBeforeBorder c = Some s
    /\ (id s ∉ usedStations (initial_state 100))
    /\ borderDistance c > currentPosition (initial_state 100)
    /\ 0 < distanceFromStart s - currentPosition (initial_state 100)
    /\ distanceFromStart s - currentPosition (initial_state 100)
       <= usableRange 5 (initial_state 100)
    /\ loop_body (Scenarios.route 50) Scenarios.border_at_start 100 5
         (initial_state 100) = (DestinationReached, initial_state 100)
    /\ calculateFuelStops (Scenarios.route 50) Scenarios.border_at_start
         100 5 100 = Some r
    /\ result_stops r = [].
Proof.
  eexists. eexists. eexists.
  split; [vm_compute; reflexivity|].
  split; [reflexivity|].
  split; [simpl; apply not_elem_of_empty|].
  split; [reflexivity|].
  split; [reflexivity|].
  split; [vm_compute; discriminate|].
  split; [vm_compute; reflexivity|].
  split; [vm_compute; reflexivity | reflexivity].
Defined.


(** C1. The border rule is lost for a crossing that comes after another
    one.  The stations are in Idaho at the start, Washington at mile 10,
    Oregon at mile 50 and California at mile 60; the tank of 100 gallons is
    full, at 7 miles per gallon, and the route is 100 miles long.  The
    crossing into California lies ahead, its last station before the border
    (mile 50) is set, unused, 50 miles away and within the usable range of
    490 miles, not beyond the border, and a fill to the full tank there
    would take 7 gallons.  But the search for the next crossing stops at
    the first pending one, into Washington, whose last station is at the
    current position: it is at distance 0, so nothing is committed, it is
    never marked used, and it keeps the crossing into California from being
    looked at.  The pass goes on to the destination check and the plan has
    no stop. *)
Theorem border_crossing_shadowed :
  exists c1 c2 s1 r,
    findStateBorderCrossings Cases.two_borders CONFIG.fullTankStates = [c1; c2]
    /\ enteringState c2 = "CA"%string
    /\ borderDistance c2 == 60
    /\ lastStationBeforeBorder c2 = Some Cases.oregon_exit
    /\ border_pending (initial_state 100) c2 = true
    /\ 0 < distanceFromStart Cases.oregon_exit
           - currentPosition (initial_state 100)
    /\ distanceFromStart Cases.oregon_exit
       - currentPosition (initial_state 100)
       <= usableRange 7 (initial_state 100)
    /\ distanceFromStart Cases.oregon_exit <= borderDistance c2
    /\ Math_round (100 - arrival_fuel 7 (initial_state 100) Cases.oregon_exit)
       == 7
    /\ nextBorderCrossing Cases.two_borders (initial_state 100) = Some c1
    /\ enteringState c1 = "WA"%string
    /\ lastStationBeforeBorder c1 = Some s1
    /\ distanceFromStart s1 - currentPosition (initial_state 100) == 0
    /\ border_priority Cases.two_borders 100 7 (initial_state 100) = None
    /\ simulate (Scenarios.route 100) Cases.two_borders 100 7 100
       = Some (initial_state 100, [DestinationReached])
    /\ calculateFuelStops (Scenarios.route 100) Cases.two_borders 100 7 100
       = Some r
    /\ result_stops r = [].
Proof.
  eexists. eexists. eexists. eexists.
  split; [vm_compute; reflexivity|].
  split; [reflexivity|]. split; [reflexivity|]. split; [reflexivity|].
  split; [vm_compute; reflexivity|].
  split; [reflexivity|].
  split; [vm_compute; discriminate|].
  split; [vm_compute; discriminate|].
  split; [vm_compute; reflexivity|].
  split; [vm_compute; reflexivity|].
  split; [reflexivity|]. split; [reflexivity|].
  split; [vm_compute; reflexivity|].
  split; [vm_compute; reflexivity|].
  split; [vm_compute; reflexivity|].
  split; [vm_compute; reflexivity | reflexivity].
Qed.

(** The same with a first crossing whose last station is one mile ahead:
    it is reachable, but the full tank would take less than half a gallon
    there, nothing is committed, and the crossing at mile 60, whose last
    station at mile 50 would take 7 gallons, is never looked at. *)
Lemma border_crossing_shadowed_by_empty_fill :
  exists c1 c2 s1 r,
    findStateBorderCrossings Cases.border_twice CONFIG.fullTankStates = [c1; c2]
    /\ lastStationBeforeBorder c2 = Some Cases.nevada_exit_again
    /\ border_pending (initial_state 100) c2 = true
    /\ 0 < distanceFromStart Cases.nevada_exit_again
           - currentPosition (initial_state 100)
    /\ distanceFromStart Cases.nevada_exit_again
       - currentPosition (initial_state 100)
       <= usableRange 7 (initial_state 100)
    /\ Math_round
         (100 - arrival_fuel 7 (initial_state 100) Cases.nevada_exit_again)
       == 7
    /\ nextBorderCrossing Cases.border_twice (initial_state 100) = Some c1
    /\ lastStationBeforeBorder c1 = Some s1
    /\ distanceFromStart s1 - currentPosition (initial_state 100) == 1
    /\ Math_round (100 - arrival_fuel 7 (initial_state 100) s1) == 0
    /\ simulate (Scenarios.route 100) Cases.border_twice 100 7 100
       = Some (initial_state 100, [DestinationReached])
    /\ calculateFuelStops (Scenarios.route 100) Cases.border_twice 100 7 100
       = Some r
    /\ result_stops r = [].
Proof.
  eexists. eexists. eexists. eexists.
  split; [vm_compute; reflexivity|].
  split; [reflexivity|].
  split; [vm_compute; reflexivity|].
  split; [reflexivity|].
  split; [vm_compute; discriminate|].
  split; [vm_compute; reflexivity|].
  split; [vm_compute; reflexivity|].
  split; [reflexivity|].
  split; [vm_compute; reflexivity|].
  split; [vm_compute; reflexivity|].
  split; [vm_compute; reflexivity|].
  split; [vm_compute; reflexivity | reflexivity].
Qed.

Lemma corridor_filter_witness :
  findStationsAlongRoute Scenarios.grid_distance
    [Scenarios.off_route; Scenarios.on_route; Scenarios.too_far]
    Scenarios.short_route
  ≡ₚ omap (annotate Scenarios.grid_distance Scenarios.short_route)
       [Scenarios.off_route; Scenarios.on_route; Scenarios.too_far]
  /\ StronglySorted corridor_order
       (findStationsAlongRoute Scenarios.grid_distance
          [Scenarios.off_route; Scenarios.on_route; Scenarios.too_far]
          Scenarios.short_route).
Proof.
  destruct (corridor_filter Scenarios.grid_distance (@Array_sort Station)
              Array_sort_contract
              [Scenarios.off_route; Scenarios.on_route; Scenarios.too_far]
              Scenarios.short_route) as (P & _ & _ & S2 & _).
  - simpl. lia.
  - split; [exact P | apply S2; vm_compute; lia].
Defined.

(** Three stations at miles 0, 4 and 8, the later ones nearer the route.
    The claimed order wants the station at mile 4 before the one at mile 0
    and the one at mile 8 before the one at mile 4 (near ties, nearer the
    route first), and the one at mile 0 before the one at mile 8 (8 apart,
    nearer the start first): the comparator is not consistent on them, no
    arrangement of the three is in the claimed order, and so the result is
    not, whatever the sort. *)
Lemma corridor_order_impossible :
  exists a b c : Station,
    omap (annotate Scenarios.grid_distance Scenarios.short_route) Cases.chain
    = [a; b; c]
    /\ (distanceFromStart a == 0 /\ distanceFromRoute a == 2)
    /\ (distanceFromStart b == 4 /\ distanceFromRoute b == 1)
    /\ (distanceFromStart c == 8 /\ distanceFromRoute c == 0)
    /\ ~ consistent corridor_compare [a; b; c]
    /\ (forall l, l ≡ₚ [a; b; c] -> ~ StronglySorted corridor_order l)
    /\ (forall sort,
          sort_contract sort ->
          ~ StronglySorted corridor_order
              (findStationsAlongRoute_with Scenarios.grid_distance sort
                 Cases.chain Scenarios.short_route))
    /\ ~ StronglySorted corridor_order
          (findStationsAlongRoute Scenarios.grid_distance Cases.chain
             Scenarios.short_route).
Proof.
  eexists. eexists. eexists.
  split; [vm_compute; reflexivity|].
  split; [split; reflexivity|]. split; [split; reflexivity|].
  split; [split; reflexivity|].
  match goal with
  | |- ~ consistent _ [?a; ?b; ?c] /\ _ =>
      assert (Hcycle : forall l, l ≡ₚ [a; b; c] ->
                                 ~ StronglySorted corridor_order l)
  end.
  { intros l. apply cycle_not_sorted;
      try (intros [[H1 H2]|H]; vm_compute in *;
           first [discriminate | apply H2; reflexivity | apply H; reflexivity]);
      discriminate. }
  split.
  - intros [_ Ht].
    match goal with
    | H : forall a b c, a ∈ [?x; ?y; ?z] -> _ |- _ =>
        specialize (H y x z)
    end.
    assert (H : ~ False) by tauto. apply H. clear H.
    assert (Hle : forall x y : Q, x <= y -> ~ y < x) by (intros; lra).
    eapply Hle; [apply Ht|].
    + right. left.
    + left.
    + right. right. left.
    + vm_compute. discriminate.
    + vm_compute. discriminate.
    + vm_compute. reflexivity.
  - split; [exact Hcycle|]. split.
    + intros sort Hsort. apply Hcycle.
      unfold findStationsAlongRoute_with. apply Hsort.
    + apply Hcycle. unfold findStationsAlongRoute. apply Array_sort_perm.
Defined.

(** * Further properties *)

(** ** findStateBorderCrossings: exactly the entries into a high-price state *)

Lemma crossings_loop_spec (hp : list string) (before : list Station)
    (s0 : Station) (rest : list Station) (c : Crossing) :
  c ∈ crossings_loop hp (s0 :: before) (state s0) rest <->
  exists l1 s t l2,
    s0 :: rest = l1 ++ s :: t :: l2
    /\ includes hp (state t) = true
    /\ includes hp (state s) = false
    /\ c = {| enteringState := state t;
              borderDistance := distanceFromStart t;
              firstStationInState := t;
              lastStationBeforeBorder := Some s |}.
Proof.
  revert before s0. induction rest as [|x rest IH]; intros before s0.
  - simpl. split.
    + intros H. inversion H.
    + intros (l1 & s & t & l2 & E & _). exfalso.
      destruct l1 as [|y l1]; [discriminate|].
      injection E as _ E. destruct l1; discriminate.
  - simpl. rewrite elem_of_app, (IH (s0 :: before) x). split.
    + intros [Hc|(l1 & s & t & l2 & E & Ht & Hs & Hc)].
      * destruct (includes hp (state x)) eqn:Ex; simpl in Hc;
          [|inversion Hc].
        destruct (includes hp (state s0)) eqn:E0; simpl in Hc;
          [inversion Hc|].
        apply list_elem_of_singleton in Hc.
        exists [], s0, x, rest. repeat split; assumption.
      * exists (s0 :: l1), s, t, l2. simpl. rewrite E. auto.
    + intros (l1 & s & t & l2 & E & Ht & Hs & Hc).
      destruct l1 as [|y l1]; simpl in E.
      * injection E as <- <- <-. left. rewrite Ht, Hs. simpl.
        apply list_elem_of_singleton. exact Hc.
      * injection E as <- E. right. exists l1, s, t, l2. auto.
Qed.

(** X1. findStateBorderCrossings returns one crossing for every station of
    a high-price state that directly follows a station of another state,
    and nothing else; the last station before the border is always set, and
    is that predecessor. *)
Theorem findStateBorderCrossings_spec (stations : list Station)
    (hp : list string) (c : Crossing) :
  c ∈ findStateBorderCrossings stations hp <->
  exists l1 s t l2,
    stations = l1 ++ s :: t :: l2
    /\ includes hp (state t) = true
    /\ includes hp (state s) = false
    /\ c = {| enteringState := state t;
              borderDistance := distanceFromStart t;
              firstStationInState := t;
              lastStationBeforeBorder := Some s |}.
Proof.
  unfold findStateBorderCrossings.
  destruct stations as [|x [|y rest]].
  - split; [intros H; inversion H|].
    intros (l1 & s & t & l2 & E & _). destruct l1; discriminate.
  - split; [intros H; inversion H|].
    intros (l1 & s & t & l2 & E & _). destruct l1 as [|? l1]; [discriminate|].
    injection E as _ E. destruct l1; discriminate.
  - apply (crossings_loop_spec hp [] x (y :: rest) c).
Qed.

Lemma findStateBorderCrossings_none (stations : list Station)
    (hp : list string) :
  (forall s : Station, s ∈ stations -> includes hp (state s) = false)
  \/ (forall s : Station, s ∈ stations -> includes hp (state s) = true) ->
  findStateBorderCrossings stations hp = [].
Proof.
  intros H.
  destruct (findStateBorderCrossings stations hp) as [|c l] eqn:E;
    [reflexivity|].
  assert (Hc : c ∈ findStateBorderCrossings stations hp) by (rewrite E; left).
  apply findStateBorderCrossings_spec in Hc.
  destruct Hc as (l1 & s & t & l2 & -> & Ht & Hs & _). exfalso.
  destruct H as [H|H].
  - rewrite (H t) in Ht; [discriminate|].
    apply elem_of_app. right. right. left.
  - rewrite (H s) in Hs; [discriminate|].
    apply elem_of_app. right. left.
Qed.

(** ** The reachable searches find a station whenever there is one *)

Lemma reachable_candidates_complete (currentPosition maxRange : Q)
    (stations : list Station) (used : gset string) (s : Station) :
  s ∈ stations -> id s ∉ used ->
  currentPosition < distanceFromStart s ->
  distanceFromStart s - currentPosition <= maxRange ->
  (s, distanceFromStart s - currentPosition)
    ∈ reachable_candidates currentPosition maxRange stations used.
Proof.
  intros Hin Hu Hpos Hr. unfold reachable_candidates.
  apply list_elem_of_In, in_flat_map. exists s.
  split; [apply list_elem_of_In, Hin|].
  assert (E1 : bool_decide (id s ∈ used) = false)
    by (apply bool_decide_eq_false; exact Hu).
  assert (E2 : leb (distanceFromStart s) currentPosition = false)
    by (apply leb_false; exact Hpos).
  assert (E3 : leb (distanceFromStart s - currentPosition) maxRange
               && gtb (distanceFromStart s - currentPosition) 0 = true).
  { apply andb_true_iff. split; [apply leb_true | apply ltb_true]; lra. }
  rewrite E1, E2, E3. left. reflexivity.
Qed.

(** X2. findAnyReachableStation and findClosestReachableStation return null
    exactly when no unused station lies strictly ahead of the current
    position within the range: unlike findBestStationInRange they never
    miss a candidate, whatever its price. *)
Theorem reachable_search_complete (currentPosition maxRange : Q)
    (stations : list Station) (used : gset string) :
  (findAnyReachableStation currentPosition maxRange stations used = None <->
   findClosestReachableStation currentPosition maxRange stations used = None)
  /\ (findAnyReachableStation currentPosition maxRange stations used = None <->
      forall s : Station,
        s ∈ stations ->
        id s ∈ used \/ distanceFromStart s <= currentPosition
        \/ maxRange < distanceFromStart s - currentPosition).
Proof.
  assert (Hhead : forall (cmp : Station * Q -> Station * Q -> Q),
             fst <$> head (Array_sort cmp
                             (reachable_candidates currentPosition maxRange
                                stations used)) = None <->
             reachable_candidates currentPosition maxRange stations used = []).
  { intros cmp. split.
    - intros H.
      destruct (reachable_candidates currentPosition maxRange stations used)
        as [|c l] eqn:E; [reflexivity|].
      destruct (Array_sort_head_nonempty cmp (c :: l)) as [x Hx];
        [discriminate|].
      rewrite Hx in H. discriminate.
    - intros ->. reflexivity. }
  unfold findAnyReachableStation, findClosestReachableStation.
  split; [rewrite !Hhead; reflexivity|].
  rewrite Hhead. split.
  - intros Hnil s Hin.
    destruct (decide (id s ∈ used)) as [Hu|Hu]; [left; exact Hu|].
    destruct (Qlt_le_dec currentPosition (distanceFromStart s)) as [Hp|Hp];
      [|right; left; exact Hp].
    destruct (Qlt_le_dec maxRange (distanceFromStart s - currentPosition))
      as [Hr|Hr]; [right; right; exact Hr|].
    pose proof (reachable_candidates_complete _ _ _ _ _ Hin Hu Hp Hr) as Hc.
    rewrite Hnil in Hc. inversion Hc.
  - intros Hall.
    destruct (reachable_candidates currentPosition maxRange stations used)
      as [|c l] eqn:E; [reflexivity|]. exfalso.
    assert (Hc : c ∈ reachable_candidates currentPosition maxRange stations used)
      by (rewrite E; left).
    apply reachable_candidates_spec in Hc. destruct Hc as (Hin & Hu & Hp & Hr).
    destruct (Hall _ Hin) as [H|[H|H]]; [contradiction | lra | lra].
Qed.

(** ** More on whole runs *)

Section PlannerFacts.
Variable routeData : RouteData.
Variable stationsAlongRoute : list Station.
Variables tankSize mpg : Q.

Local Abbreviation body := (loop_body routeData stationsAlongRoute tankSize mpg).
Local Abbreviation passes := (pass routeData stationsAlongRoute tankSize mpg).
Local Abbreviation loop := (while_loop routeData stationsAlongRoute tankSize mpg).
Local Abbreviation run := (simulate routeData stationsAlongRoute tankSize mpg).
Local Abbreviation plan :=
  (calculateFuelStops routeData stationsAlongRoute tankSize mpg).

(** X3. On a trip whose stations are all outside the high-price states, or
    all inside them, no border crossing is detected and no pass of any run
    makes a border stop. *)
Theorem no_border_stop_without_crossing (currentGallons : Q) :
  (forall s : Station,
      s ∈ stationsAlongRoute ->
      includes CONFIG.fullTankStates (state s) = false)
  \/ (forall s : Station,
        s ∈ stationsAlongRoute ->
        includes CONFIG.fullTankStates (state s) = true) ->
  stateBorderCrossings stationsAlongRoute = []
  /\ (forall st, fst (body st) <> BorderStop)
  /\ exists final trace,
       run currentGallons = Some (final, trace) /\ BorderStop ∉ trace.
Proof.
  intros H.
  assert (Hnil : stateBorderCrossings stationsAlongRoute = []).
  { unfold stateBorderCrossings, highPriceStates.
    apply findStateBorderCrossings_none, H. }
  assert (Hpass : forall st, fst (body st) <> BorderStop).
  { intros st Hb. destruct (body st) as [b st'] eqn:E. simpl in Hb. subst b.
    apply loop_body_pass in E. inversion E; subst.
    match goal with Hc : nextBorderCrossing _ _ = Some _ |- _ =>
      unfold nextBorderCrossing in Hc; rewrite Hnil in Hc; discriminate end. }
  split; [exact Hnil|]. split; [exact Hpass|].
  destruct (simulate_total routeData stationsAlongRoute tankSize mpg
              currentGallons) as (final & trace & Hrun & _).
  exists final, trace. split; [exact Hrun|]. intros Hin.
  apply while_loop_trace in Hrun. rewrite List.Forall_forall in Hrun.
  destruct (Hrun _ (proj1 (list_elem_of_In _ _) Hin)) as (s & s' & _ & Hb).
  apply (Hpass s). rewrite Hb. reflexivity.
Qed.

(** A station of the safe window is reached with more than the reserve. *)
Lemma safe_window_keeps_reserve (st : PlanState) (s : Station) :
  0 < mpg ->
  currentPosition st + 20 <= distanceFromStart s ->
  distanceFromStart s <= maxReachableDistance mpg st ->
  CONFIG.minArrivalGallons < arrival_fuel mpg st s.
Proof.
  intros Hmpg Hlo Hhi.
  unfold maxReachableDistance, usableRange, arrival_fuel,
    CONFIG.minArrivalGallons in *. cbv zeta in Hhi.
  set (d := distanceFromStart s - currentPosition st).
  set (g := currentFuel st - 30) in *.
  assert (Hd : 20 <= d) by (unfold d; lra).
  destruct (Math_max_cases (Math_max 0 g * mpg * 0.90) 10) as [[H E]|[H E]];
    rewrite E in Hhi; [unfold d in Hd; lra|].
  assert (Hd2 : d <= Math_max 0 g * mpg * 0.90) by (unfold d; lra).
  destruct (Math_max_cases 0 g) as [[Hg Eg]|[Hg Eg]]; rewrite Eg in *.
  2:{ exfalso. assert (E0 : 0 * mpg * 0.90 == 0) by ring. lra. }
  assert (E1 : g * mpg * 0.90 == g * 0.90 * mpg) by ring.
  rewrite E1 in Hd2.
  assert (Hdiv : d / mpg <= g * 0.90) by (apply Qle_shift_div_r; assumption).
  assert (Hpos : 0 < d / mpg).
  { apply Qlt_shift_div_l; [exact Hmpg | lra]. }
  unfold g in *. lra.
Qed.

Lemma while_loop_stop_count (n : nat) (st final : PlanState)
    (trace : list Branch) :
  (forall s, fst (body s) <> ReserveDiscard) ->
  loop n st = Some (final, trace) ->
  (length (stops st) + length trace <= length (stops final) + 1)%nat.
Proof.
  intros Hnd. revert st final trace.
  induction n as [|n IH]; intros st final trace Hrun; simpl in Hrun.
  - destruct (ltb _ _); [discriminate|]. injection Hrun as <- <-. simpl. lia.
  - destruct (ltb _ _); [|injection Hrun as <- <-; simpl; lia].
    destruct (body st) as [b st'] eqn:Eb.
    pose proof (Hnd st) as Hb. rewrite Eb in Hb. simpl in Hb.
    pose proof (pass_stops routeData stationsAlongRoute tankSize mpg _ _ _
                  (loop_body_pass _ _ _ _ _ _ _ Eb)) as Hs.
    destruct (exits b) eqn:Ee.
    + injection Hrun as <- <-. simpl.
      destruct Hs as [(_ & -> & _)|(_ & x & g & f & a & _ & _ & -> & _)];
        [lia | rewrite length_app; simpl; lia].
    + destruct (loop n st') as [[f t]|] eqn:E; [|discriminate].
      injection Hrun as <- <-. apply IH in E. simpl.
      destruct Hs as [(Hc & _)|(_ & x & g & f0 & a & _ & _ & Hst & _)].
      * destruct b; try discriminate; congruence.
      * rewrite Hst, length_app in E. simpl in E. lia.
Qed.

(** X4. With a positive fuel economy the reserve guard of the standard
    path never fires: a station found in the safe window (at least 20
    miles ahead, within 90% of the usable range) is always reached with
    more than 30 gallons, so no station is ever discarded.  Every pass that
    goes round again therefore commits a stop, and a run makes at most one
    pass more than it returns stops. *)
Theorem reserve_discard_unreachable (currentGallons : Q) :
  0 < mpg ->
  (forall st,
      fst (loop_body routeData stationsAlongRoute tankSize mpg st)
      <> ReserveDiscard)
  /\ exists final trace,
       simulate routeData stationsAlongRoute tankSize mpg currentGallons
       = Some (final, trace)
       /\ (ReserveDiscard ∉ trace)
       /\ (length trace <= length (stops final) + 1)%nat.
Proof.
  intros Hmpg.
  assert (Hpass : forall st, fst (body st) <> ReserveDiscard).
  { intros st Hb. destruct (body st) as [b st'] eqn:E. simpl in Hb. subst b.
    apply loop_body_pass in E. inversion E; subst.
    match goal with Hf : findBestStationInRange _ _ _ _ = Some _ |- _ =>
      apply findBestStationInRange_Some in Hf;
      destruct Hf as (_ & _ & Hlo & Hhi) end.
    pose proof (safe_window_keeps_reserve st s Hmpg Hlo Hhi). lra. }
  split; [exact Hpass|].
  destruct (simulate_total routeData stationsAlongRoute tankSize mpg
              currentGallons) as (final & trace & Hrun & _).
  exists final, trace. split; [exact Hrun|]. split.
  - intros Hin. pose proof Hrun as Ht.
    apply while_loop_trace in Ht. rewrite List.Forall_forall in Ht.
    destruct (Ht _ (proj1 (list_elem_of_In _ _) Hin)) as (s & s' & _ & Hb).
    apply (Hpass s). rewrite Hb. reflexivity.
  - unfold simulate in Hrun.
    apply (while_loop_stop_count _ _ _ _ Hpass) in Hrun. simpl in Hrun. lia.
Qed.

(** *** Fill amounts *)

Lemma Math_round_mono (x y : Q) : x <= y -> Math_round x <= Math_round y.
Proof.
  intros H. unfold Math_round. rewrite <- Zle_Qle.
  apply Qfloor_resp_le. lra.
Qed.

Lemma Math_round_nonneg (x : Q) : 0 <= x -> 0 <= Math_round x.
Proof.
  intros H. unfold Math_round. change 0 with (inject_Z 0).
  rewrite <- Zle_Qle. change 0%Z with (Qfloor 0.5).
  apply Qfloor_resp_le. lra.
Qed.

Lemma Forall_removelast {A : Type} (P : A -> Prop) (l : list A) :
  Forall P l -> Forall P (removelast l).
Proof.
  induction 1 as [|x l Hx Hl IH]; simpl; [constructor|].
  destruct l; [constructor|]. constructor; assumption.
Qed.

(** What a pass keeps of the fill invariant: the tank never holds more than
    its size, no stop adds a negative amount or fills beyond the tank, and
    as long as the loop goes on every stop has filled the tank. *)
Lemma pass_fill (st st' : PlanState) (b : Branch) :
  0 < mpg -> 0 <= tankSize ->
  body st = (b, st') ->
  currentFuel st <= tankSize
  /\ Forall (fun stop => 0 <= gallonsToAdd stop
                         /\ fillAmount stop <= Math_round tankSize) (stops st)
  /\ Forall (fun stop => fillAmount stop = Math_round tankSize) (stops st) ->
  Forall (fun stop => 0 <= gallonsToAdd stop
                      /\ fillAmount stop <= Math_round tankSize) (stops st')
  /\ Forall (fun stop => fillAmount stop = Math_round tankSize)
            (removelast (stops st'))
  /\ (exits b = false ->
      currentFuel st' <= tankSize
      /\ Forall (fun stop => fillAmount stop = Math_round tankSize) (stops st')).
Proof.
  intros Hmpg Htank Hb (Hfuel & Hall & Hfull). apply loop_body_pass in Hb.
  assert (Hpush : forall (s : Station) g f a,
             0 <= g -> f <= tankSize ->
             Forall (fun stop => 0 <= gallonsToAdd stop
                                 /\ fillAmount stop <= Math_round tankSize)
               (stops st ++
                  [createStopFromStation (S (length (stops st))) s g f a])
             /\ Forall (fun stop => fillAmount stop = Math_round tankSize)
                  (removelast
                     (stops st ++
                        [createStopFromStation (S (length (stops st))) s g f a]))).
  { intros s g f a Hg Hf. split.
    - apply Forall_app. split; [exact Hall|].
      constructor; [|constructor]. simpl.
      split; [exact Hg | apply Math_round_mono, Hf].
    - rewrite removelast_last. exact Hfull. }
  assert (Hfullpush : forall (s : Station) g a,
             Forall (fun stop => fillAmount stop = Math_round tankSize)
               (stops st ++
                  [createStopFromStation (S (length (stops st))) s g tankSize a])).
  { intros s g a. apply Forall_app. split; [exact Hfull|].
    constructor; [reflexivity | constructor]. }
  assert (Hkeep : Forall (fun stop => fillAmount stop = Math_round tankSize)
                    (removelast (stops st)))
    by (apply Forall_removelast, Hfull).
  destruct Hb; simpl.
  - destruct (Hpush s (fill_gallons mpg st tankSize s) tankSize
                (arrival_fuel mpg st s)) as [P R];
      [apply Math_max_le_l | lra|].
    split; [exact P|]. split; [exact R|]. intros _.
    split; [lra | apply Hfullpush].
  - split; [exact Hall|]. split; [exact Hkeep|]. discriminate.
  - destruct (Hpush s (fill_gallons mpg st fillTo s) fillTo
                (arrival_fuel mpg st s)) as [P R];
      [apply Math_max_le_l | assumption|].
    split; [exact P|]. split; [exact R|]. discriminate.
  - split; [exact Hall|]. split; [exact Hkeep|]. discriminate.
  - assert (Hg : 0 <= Math_round (tankSize - Math_max 0 (arrival_fuel mpg st s))).
    { apply Math_round_nonneg.
      match goal with H : findAnyReachableStation _ _ _ _ = Some _ |- _ =>
        apply findAnyReachableStation_Some in H;
        destruct H as (_ & _ & Hlt & _) end.
      assert (Hd : 0 < (distanceFromStart s - currentPosition st) / mpg).
      { apply Qlt_shift_div_l; [exact Hmpg | lra]. }
      unfold arrival_fuel.
      destruct (Math_max_cases 0
                  (currentFuel st
                   - (distanceFromStart s - currentPosition st) / mpg))
        as [[_ ->]|[_ ->]]; lra. }
    destruct (Hpush s (Math_round (tankSize - Math_max 0 (arrival_fuel mpg st s)))
                tankSize (Math_max 0 (arrival_fuel mpg st s))) as [P R];
      [exact Hg | lra|].
    split; [exact P|]. split; [exact R|]. intros _.
    split; [lra | apply Hfullpush].
  - split; [exact Hall|]. split; [exact Hkeep|]. discriminate.
  - split; [exact Hall|]. split; [exact Hkeep|]. intros _. auto.
  - destruct (Hpush s (fill_gallons mpg st tankSize s) tankSize
                (arrival_fuel mpg st s)) as [P R];
      [apply Math_max_le_l | lra|].
    split; [exact P|]. split; [exact R|]. intros _.
    split; [lra | apply Hfullpush].
Qed.

(** X5. When the tank does not start above its size (what handleCalculate
    checks before planning), no stop of the plan adds a negative number of
    gallons or fills beyond the tank size, and every stop except possibly
    the last one fills the tank. *)
Theorem fill_amounts (currentGallons : Q) :
  0 < mpg -> 0 <= tankSize -> currentGallons <= tankSize ->
  exists r,
    plan currentGallons = Some r
    /\ Forall (fun stop => 0 <= gallonsToAdd stop
                           /\ fillAmount stop <= Math_round tankSize)
              (result_stops r)
    /\ Forall (fun stop => fillAmount stop = Math_round tankSize)
              (removelast (result_stops r)).
Proof.
  intros Hmpg Htank Hcg.
  destruct (simulate_total routeData stationsAlongRoute tankSize mpg
              currentGallons) as (final & trace & Hrun & _).
  exists (finish routeData tankSize mpg final).
  split; [apply (calculateFuelStops_simulate _ _ _ _ _ _ _ Hrun)|]. simpl.
  unfold simulate in Hrun.
  refine (while_loop_ind routeData stationsAlongRoute tankSize mpg
            (fun st =>
               currentFuel st <= tankSize
               /\ Forall (fun stop => 0 <= gallonsToAdd stop
                                      /\ fillAmount stop <= Math_round tankSize)
                         (stops st)
               /\ Forall (fun stop => fillAmount stop = Math_round tankSize)
                         (stops st))
            (fun st =>
               Forall (fun stop => 0 <= gallonsToAdd stop
                                   /\ fillAmount stop <= Math_round tankSize)
                      (stops st)
               /\ Forall (fun stop => fillAmount stop = Math_round tankSize)
                         (removelast (stops st)))
            _ _ _ _ _ _ _ _ Hrun).
  - intros st b st' Hinv _ Hb He.
    destruct (pass_fill _ _ _ Hmpg Htank Hb Hinv) as (P & _ & R).
    destruct (R He). auto.
  - intros st b st' Hinv _ Hb He.
    destruct (pass_fill _ _ _ Hmpg Htank Hb Hinv) as (P & R & _). auto.
  - intros st (_ & P & F). split; [exact P | apply Forall_removelast, F].
  - simpl. split; [exact Hcg|]. split; constructor.
Qed.

(** X6. When the loop ends because the destination is within reach, the
    final fuel estimate is the simulated fuel at the destination, not a
    clamped value, and it is at least the target of 0.75 x tankSize. *)
Theorem destination_reserve (currentGallons : Q) (final : PlanState)
    (trace : list Branch) :
  0 < mpg ->
  run currentGallons = Some (final, trace) ->
  last trace = Some DestinationReached ->
  plan currentGallons
  = Some {| result_stops := stops final;
            finalFuel := fuelAtDestination routeData mpg final |}
  /\ targetFuelAtDestination tankSize <= fuelAtDestination routeData mpg final.
Proof.
  intros Hmpg Hrun Hlast.
  pose proof (calculateFuelStops_simulate _ _ _ _ _ _ _ Hrun) as Hplan.
  apply (while_loop_last _ _ _ _ _ _ _ _ _ Hrun) in Hlast.
  destruct Hlast as (s & _ & Hb). apply loop_body_pass in Hb.
  inversion Hb; subst.
  split; [|assumption].
  rewrite Hplan. unfold finish. f_equal. f_equal.
  unfold Math_max.
  match goal with |- (if leb ?a ?b then _ else _) = _ =>
    change b with (fuelAtDestination routeData mpg final);
    assert (E : leb a (fuelAtDestination routeData mpg final) = true)
      by (apply leb_true; assumption)
  end.
  rewrite E. reflexivity.
Qed.

(** *** The trip summary *)

Lemma toFixed1_error (x : Q) :
  x - 0.05 <= toFixed1 x /\ toFixed1 x <= x + 0.05.
Proof.
  assert (H : forall y, 0 <= y ->
            y - 0.05 <= inject_Z (Qfloor (y * 10 + 0.5)) / 10
            /\ inject_Z (Qfloor (y * 10 + 0.5)) / 10 <= y + 0.05).
  { intros y _.
    pose proof (Qfloor_le (y * 10 + 0.5)) as Hle.
    pose proof (Qlt_floor (y * 10 + 0.5)) as Hlt.
    rewrite inject_Z_plus in Hlt.
    set (f := inject_Z (Qfloor (y * 10 + 0.5))) in *.
    assert (E : f / 10 * 10 == f) by field.
    change (inject_Z 1) with 1 in Hlt. split; lra. }
  unfold toFixed1. destruct (ltb x 0) eqn:E; js_tests.
  - destruct (H (- x)) as [H1 H2]; [lra|]. split; lra.
  - apply H, E.
Qed.

Lemma fold_savings_nonneg (l : list Stop) (acc : Q) :
  0 <= acc -> Forall (fun stop => 0 <= savings stop) l ->
  0 <= fold_left (fun sum stop => sum + savings stop) l acc.
Proof.
  revert acc. induction l as [|x l IH]; intros acc Hacc Hall; simpl.
  - exact Hacc.
  - apply Forall_cons in Hall. destruct Hall as [Hx Hl].
    apply IH; [lra | exact Hl].
Qed.

Lemma pass_savings (st st' : PlanState) (b : Branch) :
  body st = (b, st') ->
  Forall (fun stop => 0 <= savings stop) (stops st) ->
  Forall (fun stop => 0 <= savings stop) (stops st').
Proof.
  intros Hb Hall. apply loop_body_pass, pass_stops in Hb.
  destruct Hb as [(_ & -> & _)|(_ & s & g & f & a & _ & _ & -> & _)];
    [exact Hall|].
  apply Forall_app. split; [exact Hall|].
  constructor; [|constructor]. simpl. apply Math_max_le_l.
Qed.

(** X7. The summary handleCalculate shows after any run: the final fuel,
    before it is rounded to a tenth, lies between 0.75 x tankSize and
    tankSize, whether or not the destination can actually be reached; the
    rounding moves it by at most 0.05; and the total savings are not
    negative. *)
Theorem trip_summary_bounds (currentGallons : Q) :
  0 < mpg -> 0 <= tankSize ->
  exists r,
    plan currentGallons = Some r
    /\ targetFuelAtDestination tankSize <= Math_min tankSize (finalFuel r)
    /\ Math_min tankSize (finalFuel r) <= tankSize
    /\ Math_min tankSize (finalFuel r) - 0.05
       <= summary_finalFuel (tripSummary tankSize r)
    /\ summary_finalFuel (tripSummary tankSize r)
       <= Math_min tankSize (finalFuel r) + 0.05
    /\ 0 <= totalSavings (tripSummary tankSize r).
Proof.
  intros Hmpg Htank.
  destruct (simulate_total routeData stationsAlongRoute tankSize mpg
              currentGallons) as (final & trace & Hrun & _).
  exists (finish routeData tankSize mpg final).
  split; [apply (calculateFuelStops_simulate _ _ _ _ _ _ _ Hrun)|].
  assert (Htarget : targetFuelAtDestination tankSize
                    <= finalFuel (finish routeData tankSize mpg final))
    by (simpl; apply Math_max_le_l).
  assert (Hlow : targetFuelAtDestination tankSize <= tankSize).
  { unfold targetFuelAtDestination, CONFIG.destinationFuelTarget. lra. }
  split.
  { unfold Math_min. destruct (leb tankSize _); assumption. }
  split; [apply Math_min_le_l|].
  split; [apply toFixed1_error|]. split; [apply toFixed1_error|].
  simpl. apply fold_savings_nonneg; [lra|].
  unfold simulate in Hrun.
  refine (while_loop_ind routeData stationsAlongRoute tankSize mpg
            (fun st => Forall (fun stop => 0 <= savings stop) (stops st))
            (fun st => Forall (fun stop => 0 <= savings stop) (stops st))
            _ _ _ _ _ _ _ _ Hrun).
  - intros st b st' Hinv _ Hb _. eapply pass_savings; eauto.
  - intros st b st' Hinv _ Hb _. eapply pass_savings; eauto.
  - auto.
  - constructor.
Qed.

(** X8. A run that halts because no station is reachable before any stop
    was committed is shown like a success: renderFuelStopCards puts up the
    message that there is enough fuel to complete the trip, and the summary
    shows the target fuel (capped at the tank size), although the simulated
    fuel at the destination is negative. *)
Theorem failure_halt_shown_as_success (currentGallons : Q)
    (final : PlanState) (trace : list Branch) :
  0 < mpg ->
  run currentGallons = Some (final, trace) ->
  last trace = Some NoReachableStation ->
  stops final = [] ->
  exists r,
    plan currentGallons = Some r
    /\ fuelAtDestination routeData mpg final < 0
    /\ renderFuelStopCards (result_stops r) = EnoughFuelMessage
    /\ summary_finalFuel (tripSummary tankSize r)
       = toFixed1 (Math_min tankSize (targetFuelAtDestination tankSize)).
Proof.
  intros Hmpg Hrun Hlast Hstops.
  pose proof (calculateFuelStops_simulate _ _ _ _ _ _ _ Hrun) as Hplan.
  apply (while_loop_last _ _ _ _ _ _ _ _ _ Hrun) in Hlast.
  destruct Hlast as (s & _ & Hb). apply loop_body_pass in Hb.
  inversion Hb; subst.
  eexists. split; [exact Hplan|]. split; [assumption|]. simpl.
  rewrite Hstops. split; [reflexivity|].
  unfold Math_max.
  match goal with |- context [leb ?a ?b] =>
    change b with (fuelAtDestination routeData mpg final);
    assert (E : leb a (fuelAtDestination routeData mpg final) = false)
      by (apply leb_false; assumption)
  end.
  rewrite E. reflexivity.
Qed.

(** *** The near-miss fill *)

Lemma Qfloor_half (z : Z) : Qfloor (inject_Z z + 0.5) = z.
Proof.
  pose proof (Qfloor_le (inject_Z z + 0.5)) as Hle.
  pose proof (Qlt_floor (inject_Z z + 0.5)) as Hlt.
  rewrite inject_Z_plus in Hlt. change (inject_Z 1) with 1 in Hlt.
  assert (H1 : inject_Z (Qfloor (inject_Z z + 0.5)) < inject_Z (z + 1)).
  { rewrite inject_Z_plus. change (inject_Z 1) with 1. lra. }
  assert (H2 : inject_Z z < inject_Z (Qfloor (inject_Z z + 0.5) + 1)).
  { rewrite inject_Z_plus. change (inject_Z 1) with 1. lra. }
  rewrite <- Zlt_Qlt in H1, H2. lia.
Qed.

Lemma Math_round_whole (z : Z) : Math_round (inject_Z z + 5) == inject_Z z + 5.
Proof.
  unfold Math_round.
  assert (E : inject_Z z + 5 + 0.5 == inject_Z (z + 5) + 0.5).
  { rewrite inject_Z_plus. change (inject_Z 5) with 5. reflexivity. }
  rewrite (Qfloor_comp _ _ E), Qfloor_half, inject_Z_plus.
  change (inject_Z 5) with 5. reflexivity.
Qed.

(** X9. The stop of the near-miss path either fills the tank, or fills to a
    whole number of gallons that leaves, after the rest of the route, at
    least the target plus the 5 gallon buffer. *)
Theorem near_miss_fill (st st' : PlanState) :
  body st = (NearMissStop, st') ->
  exists (s : Station) stop,
    stops st' = stops st ++ [stop]
    /\ stop_station stop = s
    /\ currentPosition st <= distanceFromStart s
    /\ 0 < gallonsToAdd stop
    /\ (fillAmount stop = Math_round tankSize
        \/ (fillAmount stop <= tankSize
            /\ targetFuelAtDestination tankSize + 5
               <= fillAmount stop
                  - (totalDistance routeData - distanceFromStart s) / mpg)).
Proof.
  intros Hb.
  assert (Hnm : near_miss routeData stationsAlongRoute tankSize mpg st
                = (NearMissStop, st')).
  { unfold loop_body in Hb.
    destruct (border_priority _ _ _ st); [discriminate|]. cbv zeta in Hb.
    destruct (geb _ _); [discriminate|].
    destruct (geb _ 0 && ltb _ _); [exact Hb|].
    destruct (findBestStationInRange _ _ _ _) as [s|].
    - unfold standard_stop in Hb. cbv zeta in Hb.
      destruct (ltb _ CONFIG.minArrivalGallons); discriminate.
    - unfold expanded_search in Hb.
      destruct (findAnyReachableStation _ _ _ _); discriminate. }
  clear Hb. unfold near_miss in Hnm.
  destruct (findBestStationInRange _ _ _ _) as [s|] eqn:Es; [|discriminate].
  cbv zeta in Hnm.
  destruct (gtb _ 0) eqn:Eg; [|discriminate].
  injection Hnm as <-. apply findBestStationInRange_Some in Es.
  destruct Es as (_ & _ & Hlo & _). js_tests.
  eexists. eexists. split; [reflexivity|]. simpl.
  split; [reflexivity|]. split; [exact Hlo|]. split; [exact Eg|].
  destruct (_ || _); [left; reflexivity|].
  unfold Math_min.
  destruct (leb tankSize _) eqn:El; js_tests; [left; reflexivity | right].
  unfold Math_ceil in *. rewrite Math_round_whole.
  split; [lra|].
  pose proof (Qle_ceiling
                ((totalDistance routeData - distanceFromStart s) / mpg
                 + targetFuelAtDestination tankSize)).
  lra.
Qed.

End PlannerFacts.

(** ** createStopFromStation: the price and its category *)

(** X10. For a station whose price is a number other than 0 the stop record
    carries that price, and its category is the tier the selection policy
    put the station in.  A station whose price is 0, null or missing is
    shown at 3.00 in the category good, while the selection policy ranked a
    price of 0 or null as excellent. *)
Theorem stop_price_category (stopNumber : nat) (s : Station)
    (gallons fillTo fuelArriving : Q) :
  (forall q, price s = PriceNum q -> ~ q == 0 ->
     stop_price (createStopFromStation stopNumber s gallons fillTo fuelArriving)
     = q
     /\ tier s
        = Some (priceCategory
                  (createStopFromStation stopNumber s gallons fillTo
                     fuelArriving)))
  /\ (price s = PriceNull \/ price s = PriceUndefined
      \/ (exists q, price s = PriceNum q /\ q == 0) ->
      stop_price (createStopFromStation stopNumber s gallons fillTo fuelArriving)
      = 3.00
      /\ priceCategory
           (createStopFromStation stopNumber s gallons fillTo fuelArriving)
         = good)
  /\ (price s = PriceNull \/ (exists q, price s = PriceNum q /\ q == 0) ->
      tier s = Some excellent).
Proof.
  split; [|split].
  - intros q Hp Hq. unfold createStopFromStation. cbv zeta. simpl.
    assert (E0 : Qeq_bool q 0 = false).
    { apply not_true_iff_false. rewrite Qeq_bool_iff. exact Hq. }
    unfold tier, is_excellent, is_good, is_fair, is_high, price_leb, price_gtb.
    rewrite Hp. simpl. rewrite E0. split; [reflexivity|].
    unfold gtb, ltb, leb.
    destruct (Qle_bool q CONFIG.priceThresholds_excellent); [reflexivity|].
    destruct (Qle_bool q CONFIG.priceThresholds_good); [reflexivity|].
    destruct (Qle_bool q CONFIG.priceThresholds_fair); reflexivity.
  - intros H. unfold createStopFromStation. cbv zeta. simpl.
    assert (E : price_or (price s) 3.00 = 3.00).
    { destruct H as [->|[->|(q & -> & Hq)]]; try reflexivity.
      simpl. apply Qeq_bool_iff in Hq. rewrite Hq. reflexivity. }
    rewrite E. split; reflexivity.
  - intros H. unfold tier, is_excellent, price_leb.
    destruct H as [->|(q & -> & Hq)]; [reflexivity|]. simpl.
    assert (E : leb q CONFIG.priceThresholds_excellent = true).
    { apply leb_true. unfold CONFIG.priceThresholds_excellent. lra. }
    rewrite E. reflexivity.
Qed.

(** ** More on findStationsAlongRoute *)

Section CorridorBounds.
Variable haversineDistance : Q -> Q -> Q -> Q -> Q.

Lemma annotate_data (routeData : RouteData) (station : StationData)
    (s : Station) :
  annotate haversineDistance routeData station = Some s -> data s = station.
Proof.
  unfold annotate.
  destruct (closest_scan _ _ _ _ _ _) as [[m|] i]; [|discriminate].
  destruct (leb m routeBuffer); [|discriminate].
  intros H. injection H as <-. reflexivity.
Qed.

Lemma findStationsAlongRoute_elem (dataset : list StationData)
    (routeData : RouteData) (s : Station) :
  s ∈ findStationsAlongRoute haversineDistance dataset routeData ->
  data s ∈ dataset
  /\ annotate haversineDistance routeData (data s) = Some s.
Proof.
  unfold findStationsAlongRoute. intros H.
  destruct dataset as [|d dataset]; [inversion H|].
  rewrite Array_sort_perm in H. apply list_elem_of_omap in H.
  destruct H as (x & Hx & Ha).
  rewrite (annotate_data _ _ _ Ha). auto.
Qed.

(** X11. On a polyline of at least two points and a route distance that is
    not negative, every station the corridor filter returns comes from the
    station table, lies within the buffer of 3, points at a route point
    that exists and has a distanceFromStart between 0 and the route
    distance. *)
Theorem corridor_annotation_bounds (dataset : list StationData)
    (routeData : RouteData) (s : Station) :
  (2 <= length (coordinates routeData))%nat ->
  0 <= distance routeData ->
  s ∈ findStationsAlongRoute haversineDistance dataset routeData ->
  data s ∈ dataset
  /\ (routeIndex s < length (coordinates routeData))%nat
  /\ distanceFromRoute s <= 3
  /\ 0 <= distanceFromStart s
  /\ distanceFromStart s <= distance routeData.
Proof.
  intros Hn Hd Hs. apply findStationsAlongRoute_elem in Hs.
  destruct Hs as [Hin Ha]. split; [exact Hin|].
  pose proof (annotate_spec haversineDistance routeData (data s)) as Hspec.
  rewrite Ha in Hspec. destruct Hspec as (i & m & Hnear & Hm & ->).
  destruct Hnear as ((c & Hc & _) & _). apply lookup_lt_Some in Hc.
  simpl. split; [exact Hc|]. split; [exact Hm|].
  set (n := length (coordinates routeData)) in *.
  assert (Hden : 0 < inject_Z (Z.of_nat n) - 1).
  { assert (H2 : inject_Z 2 <= inject_Z (Z.of_nat n))
      by (rewrite <- Zle_Qle; lia).
    change (inject_Z 2) with 2 in H2. lra. }
  assert (Hi0 : 0 <= inject_Z (Z.of_nat i)).
  { change 0 with (inject_Z 0). rewrite <- Zle_Qle. lia. }
  assert (Hi1 : inject_Z (Z.of_nat i) <= inject_Z (Z.of_nat n) - 1).
  { assert (H1 : inject_Z (Z.of_nat i + 1) <= inject_Z (Z.of_nat n))
      by (rewrite <- Zle_Qle; lia).
    rewrite inject_Z_plus in H1. change (inject_Z 1) with 1 in H1. lra. }
  set (r := inject_Z (Z.of_nat i) / (inject_Z (Z.of_nat n) - 1)).
  assert (Hr0 : 0 <= r).
  { unfold r. apply Qle_shift_div_l; [exact Hden | lra]. }
  assert (Hr1 : r <= 1).
  { unfold r. apply Qle_shift_div_r; [exact Hden | lra]. }
  split.
  - apply Qmult_le_0_compat; assumption.
  - assert (H : r * distance routeData <= 1 * distance routeData)
      by (apply Qmult_le_compat_r; assumption).
    lra.
Qed.

Lemma omap_annotate_ids (routeData : RouteData) (dataset : list StationData) :
  NoDup (map id dataset) ->
  NoDup (map (fun s : Station => id s)
             (omap (annotate haversineDistance routeData) dataset))
  /\ (forall x, x ∈ map (fun s : Station => id s)
                      (omap (annotate haversineDistance routeData) dataset) ->
                x ∈ map id dataset).
Proof.
  induction dataset as [|d dataset IH]; intros Hnd; simpl.
  - split; [constructor | auto].
  - apply NoDup_cons in Hnd. destruct Hnd as [Hd Hnd].
    destruct (IH Hnd) as [IH1 IH2].
    destruct (annotate haversineDistance routeData d) as [s|] eqn:Ea; simpl.
    + rewrite (annotate_data _ _ _ Ea). split.
      * apply NoDup_cons. split; [|exact IH1]. intros Hx. apply Hd, IH2, Hx.
      * intros x Hx. apply elem_of_cons in Hx.
        destruct Hx as [->|Hx]; [left | right; apply IH2, Hx].
    + split; [exact IH1|]. intros x Hx. right. apply IH2, Hx.
Qed.

(** X12. The corridor filter keeps station ids distinct: when no two
    stations of the table share an id, no two stations of the result do
    (each table station is pushed at most once), so marking an id used in
    the planner retires one station only. *)
Theorem corridor_keeps_ids_distinct (dataset : list StationData)
    (routeData : RouteData) :
  NoDup (map id dataset) ->
  NoDup (map (fun s : Station => id s)
             (findStationsAlongRoute haversineDistance dataset routeData)).
Proof.
  intros Hnd. unfold findStationsAlongRoute.
  destruct dataset as [|d dataset]; [constructor|].
  rewrite Array_sort_perm. apply omap_annotate_ids, Hnd.
Qed.

(** X13. The straight-line route built when the routing provider fails has
    max(20, floor(distance / 10)) + 1 points, so at least 21 and never a
    single one; it starts at the start point and ends at the end point, and
    its duration is the distance at 55 miles per hour. *)
Theorem fallback_route_shape (start finish : Q * Q) :
  let route := calculateFallbackRoute haversineDistance start finish in
  distance route
  = haversineDistance (fst start) (snd start) (fst finish) (snd finish)
  /\ duration route = distance route / 55
  /\ length (coordinates route)
     = S (Z.to_nat (Z.max 20 (Qfloor (distance route / 10))))
  /\ (21 <= length (coordinates route))%nat
  /\ (exists p, head (coordinates route) = Some p
                /\ fst p == fst start /\ snd p == snd start)
  /\ (exists p, last (coordinates route) = Some p
                /\ fst p == fst finish /\ snd p == snd finish).
Proof.
  unfold calculateFallbackRoute. cbv zeta. cbn [coordinates distance duration].
  set (d := haversineDistance (fst start) (snd start) (fst finish) (snd finish)).
  set (n := Z.to_nat (Z.max 20 (Qfloor (d / 10)))).
  assert (Hn : (20 <= n)%nat) by (unfold n; lia).
  split; [reflexivity|]. split; [reflexivity|].
  split; [rewrite length_map, length_seq; reflexivity|].
  split; [rewrite length_map, length_seq; lia|].
  split.
  - cbn [seq map head]. eexists. split; [reflexivity|]. cbn [fst snd].
    assert (E : inject_Z (Z.of_nat 0) / inject_Z (Z.of_nat n) == 0).
    { unfold Qdiv. change (inject_Z (Z.of_nat 0)) with 0. ring. }
    rewrite E. split; ring.
  - rewrite seq_S, map_app. cbn [map]. rewrite last_snoc.
    eexists. split; [reflexivity|]. cbn [fst snd Nat.add].
    assert (Hpos : 0 < inject_Z (Z.of_nat n)).
    { change 0 with (inject_Z 0). rewrite <- Zlt_Qlt. lia. }
    assert (E : inject_Z (Z.of_nat n) / inject_Z (Z.of_nat n) == 1)
      by (field; lra).
    rewrite E. split; ring.
Qed.

End CorridorBounds.

(** ** Prices *)

Lemma regional_price_entries (state : string) (p : Q) :
  Prices.REGIONAL_DIESEL_PRICES !! state = Some p ->
  3.10 <= p /\ p <= 4.85.
Proof.
  unfold Prices.REGIONAL_DIESEL_PRICES. intros H.
  apply elem_of_list_to_map_2, list_elem_of_In in H.
  match type of H with
  | In _ ?l =>
      assert (Hall : forallb (fun kv : string * Q =>
                                leb 3.10 (snd kv) && leb (snd kv) 4.85) l
                     = true) by (vm_compute; reflexivity)
  end.
  rewrite forallb_forall in Hall. specialize (Hall _ H). simpl in Hall.
  js_tests. split; assumption.
Qed.

(** X14. For every state code that is not the name of a property inherited
    from Object.prototype, getRegionalPrice returns a price between 3.10
    and 4.85, and 3.50 for a code that is not in the table: a regional
    price is never in the excellent tier (at most 2.95), and the prices of
    CA and WA are in the high tier (above 3.60). *)
Theorem regional_price_range (state : string) :
  state ∉ Prices.Object_prototype_keys ->
  exists p,
    Prices.getRegionalPrice state = Some p
    /\ 3.10 <= p /\ p <= 4.85
    /\ price_leb (PriceNum p) CONFIG.priceThresholds_excellent = false
    /\ (Prices.REGIONAL_DIESEL_PRICES !! state = None -> p = 3.50)
    /\ (state ∈ CONFIG.fullTankStates ->
        price_gtb (PriceNum p) CONFIG.priceThresholds_fair = true).
Proof.
  intros Hkey.
  assert (Hd : Prices.REGIONAL_DIESEL_PRICES !! "DEFAULT"%string = Some 3.50)
    by (vm_compute; reflexivity).
  assert (Hrange : exists p,
             Prices.getRegionalPrice state = Some p
             /\ (3.10 <= p /\ p <= 4.85)
             /\ (Prices.REGIONAL_DIESEL_PRICES !! state = None -> p = 3.50)
             /\ (forall q, Prices.REGIONAL_DIESEL_PRICES !! state = Some q ->
                           p = q)).
  { unfold Prices.getRegionalPrice, includes.
    rewrite (bool_decide_eq_false_2 _ Hkey).
    destruct (Prices.REGIONAL_DIESEL_PRICES !! state) as [p|] eqn:E.
    - pose proof (regional_price_entries _ _ E) as Hp.
      assert (E0 : Qeq_bool p 0 = false).
      { apply not_true_iff_false. rewrite Qeq_bool_iff. lra. }
      rewrite E0. exists p. split; [reflexivity|]. split; [exact Hp|].
      split; [discriminate|]. intros q Hq. congruence.
    - rewrite Hd. exists 3.50. split; [reflexivity|].
      split; [split; discriminate|]. split; [reflexivity | discriminate]. }
  destruct Hrange as (p & Hg & [Hlo Hhi] & Hnone & Hsome).
  exists p. split; [exact Hg|]. split; [exact Hlo|]. split; [exact Hhi|].
  split.
  { unfold price_leb. simpl. apply leb_false.
    unfold CONFIG.priceThresholds_excellent. lra. }
  split; [exact Hnone|].
  intros Hca. unfold CONFIG.fullTankStates in Hca.
  apply elem_of_cons in Hca.
  destruct Hca as [->|Hca];
    [rewrite (Hsome 4.85) by (vm_compute; reflexivity); reflexivity|].
  apply list_elem_of_singleton in Hca. subst state.
  rewrite (Hsome 4.45) by (vm_compute; reflexivity). reflexivity.
Qed.

(** X15. Without a state code (as every caller in app.js calls it) or
    without the FuelPrices module, estimateFuelPrice returns one of eight
    prices between 3.25 and 4.30, decided by the longitude band and the
    brand: 4.30 west of -115, 3.70 from there to -100, 3.30 from there to
    -85 and 3.60 east of it, less 0.05 for a brand with "flying" in its
    name, whatever the latitude.  It is never a price of the excellent
    tier, and a price of the high tier west of longitude -115. *)
Theorem estimated_price_range (fuelPricesLoaded : bool) (lat lng : Q)
    (brand stateCode : string) :
  fuelPricesLoaded = false \/ stateCode = ""%string ->
  exists p,
    Prices.estimateFuelPrice fuelPricesLoaded lat lng brand stateCode = Some p
    /\ 3.25 <= p /\ p <= 4.30
    /\ price_leb (PriceNum p) CONFIG.priceThresholds_excellent = false
    /\ (lng < -115 ->
        price_gtb (PriceNum p) CONFIG.priceThresholds_fair = true)
    /\ (lng < -115 ->
        p == 4.30 - (if Prices.string_includes (Prices.toLowerCase brand)
                          "flying" then 0.05 else 0))
    /\ (-115 <= lng -> lng < -100 ->
        p == 3.70 - (if Prices.string_includes (Prices.toLowerCase brand)
                          "flying" then 0.05 else 0))
    /\ (-100 <= lng -> lng < -85 ->
        p == 3.30 - (if Prices.string_includes (Prices.toLowerCase brand)
                          "flying" then 0.05 else 0))
    /\ (-85 <= lng ->
        p == 3.60 - (if Prices.string_includes (Prices.toLowerCase brand)
                          "flying" then 0.05 else 0)).
Proof.
  intros H. unfold Prices.estimateFuelPrice.
  assert (E : fuelPricesLoaded && negb (String.eqb stateCode "") = false).
  { destruct H as [->| ->]; [reflexivity|]. apply andb_false_r. }
  rewrite E. cbv zeta.
  destruct (Prices.string_includes _ _);
    destruct (ltb lng (-115)) eqn:E1;
    [| destruct (ltb lng (-100)) eqn:E2;
       [| destruct (ltb lng (-85)) eqn:E3]
     | | destruct (ltb lng (-100)) eqn:E2;
       [| destruct (ltb lng (-85)) eqn:E3]];
    js_tests;
    (eexists; split; [reflexivity|];
     split; [vm_compute; discriminate|];
     split; [vm_compute; discriminate|];
     split; [vm_compute; reflexivity|];
     split; [intros Hw; first [vm_compute; reflexivity | exfalso; lra]|];
     repeat split; intros;
     first [vm_compute; reflexivity | exfalso; lra]).
Qed.

(** ** parseCSVWithMultiline *)

(** Induction over the steps of the parser: a property of the state that
    every step keeps holds when the loop is over. *)
Lemma parse_loop_invariant (P : CSV.ParseState -> Prop) :
  (forall st c, P st -> P (CSV.add_char st c)) ->
  (forall st b, P st -> P (CSV.set_inQuotes st b)) ->
  (forall st, P st -> P (CSV.end_field st)) ->
  (forall st, P st -> P (CSV.end_record st)) ->
  forall text st, P st -> P (CSV.parse_loop text st).
Proof.
  intros Hadd Hset Hfield Hrecord text.
  assert (H : forall n text st,
             (String.length text <= n)%nat -> P st ->
             P (CSV.parse_loop text st)).
  { induction n as [|n IH]; intros t st Hlen Hst.
    - destruct t; [exact Hst | simpl in Hlen; lia].
    - destruct t as [|char rest]; [exact Hst|]. simpl in Hlen. simpl.
      assert (Hrest : forall s, P s -> P (CSV.parse_loop rest s))
        by (intros s Hs; apply IH; [lia | exact Hs]).
      assert (Hrest' : forall c rest' s, rest = String c rest' -> P s ->
                         P (CSV.parse_loop rest' s)).
      { intros c rest' s -> Hs. apply IH; [simpl in Hlen; lia | exact Hs]. }
      destruct (CSV.inQuotes st).
      + destruct (Ascii.eqb char CSV.quote); [|auto].
        destruct rest as [|nextChar rest']; [auto|].
        destruct (Ascii.eqb nextChar CSV.quote); [eauto | auto].
      + destruct (Ascii.eqb char CSV.quote); [auto|].
        destruct (Ascii.eqb char CSV.comma); [auto|].
        destruct (Ascii.eqb char CSV.CR).
        * destruct rest as [|nextChar rest']; [auto|].
          destruct (Ascii.eqb nextChar CSV.LF); [eauto | auto].
        * destruct (Ascii.eqb char CSV.LF); auto. }
  intros st. apply (H (String.length text)). lia.
Qed.

(** X16. Every record parseCSVWithMultiline returns has a first field that
    is not empty: blank lines and lines that start with an empty field are
    dropped, whatever the text. *)
Theorem parsed_records_have_first_field (text : string) :
  Forall (fun record => exists first rest,
                          record = first :: rest /\ first <> ""%string)
         (CSV.parseCSVWithMultiline text).
Proof.
  assert (Hfirst : forall record,
             CSV.has_first_field record = true ->
             exists first rest, record = first :: rest /\ first <> ""%string).
  { intros [|first rest] H; [discriminate|]. exists first, rest.
    split; [reflexivity|]. simpl in H. apply negb_true_iff in H.
    intros ->. discriminate. }
  set (P := fun st : CSV.ParseState =>
              Forall (fun record => exists first rest,
                        record = first :: rest /\ first <> ""%string)
                     (CSV.records st)).
  assert (Hrecord : forall st, P st -> P (CSV.end_record st)).
  { intros st Hst. unfold P, CSV.end_record. simpl.
    destruct (CSV.has_first_field _) eqn:E; [|exact Hst].
    apply Forall_app. split; [exact Hst|].
    constructor; [apply Hfirst, E | constructor]. }
  assert (Hloop : P (CSV.parse_loop text
                       {| CSV.records := []; CSV.currentRecord := [];
                          CSV.currentField := ""; CSV.inQuotes := false |})).
  { apply parse_loop_invariant; try (intros; assumption); [exact Hrecord|].
    constructor. }
  unfold CSV.parseCSVWithMultiline. cbv zeta.
  destruct (_ || _); [apply Hrecord, Hloop | exact Hloop].
Qed.

Lemma parse_loop_record_count (text : string) (st : CSV.ParseState) :
  (length (CSV.records (CSV.parse_loop text st))
   <= length (CSV.records st) + CSV.line_breaks text)%nat.
Proof.
  assert (Hend : forall s,
             (length (CSV.records (CSV.end_record s))
              <= S (length (CSV.records s)))%nat).
  { intros s. unfold CSV.end_record. simpl.
    destruct (CSV.has_first_field _); [rewrite length_app; simpl; lia | lia]. }
  assert (H : forall n text st,
             (String.length text <= n)%nat ->
             (length (CSV.records (CSV.parse_loop text st))
              <= length (CSV.records st) + CSV.line_breaks text)%nat).
  { induction n as [|n IH]; intros t s Hlen.
    - destruct t; [simpl; lia | simpl in Hlen; lia].
    - destruct t as [|char rest]; [simpl; lia|]. simpl in Hlen.
      assert (Hrest : forall s',
                 (length (CSV.records (CSV.parse_loop rest s'))
                  <= length (CSV.records s') + CSV.line_breaks rest)%nat)
        by (intros s'; apply IH; lia).
      assert (Hrest' : forall c rest' s', rest = String c rest' ->
                 (length (CSV.records (CSV.parse_loop rest' s'))
                  <= length (CSV.records s') + CSV.line_breaks rest')%nat).
      { intros c rest' s' ->. apply IH. simpl in Hlen. lia. }
      assert (Hbreaks : forall c rest', rest = String c rest' ->
                 (CSV.line_breaks rest' <= CSV.line_breaks rest)%nat).
      { intros c rest' ->. cbn [CSV.line_breaks]. lia. }
      assert (Hone : Ascii.eqb char CSV.CR = true
                     \/ Ascii.eqb char CSV.LF = true ->
                     CSV.line_breaks (String char rest)
                     = S (CSV.line_breaks rest)).
      { intros E. cbn [CSV.line_breaks].
        destruct E as [-> | ->]; [|rewrite orb_true_r]; reflexivity. }
      assert (Hany : (CSV.line_breaks rest
                      <= CSV.line_breaks (String char rest))%nat).
      { cbn [CSV.line_breaks]. lia. }
      cbn [CSV.parse_loop].
      destruct (CSV.inQuotes s).
      + destruct (Ascii.eqb char CSV.quote).
        * destruct rest as [|nextChar rest'] eqn:Erest.
          -- pose proof (Hrest (CSV.set_inQuotes s false)) as H1.
             cbn [CSV.records CSV.set_inQuotes] in H1. lia.
          -- destruct (Ascii.eqb nextChar CSV.quote).
             ++ pose proof (Hrest' _ _ (CSV.add_char s CSV.quote) eq_refl) as H1.
                pose proof (Hbreaks _ _ eq_refl).
                cbn [CSV.records CSV.add_char] in H1. lia.
             ++ pose proof (Hrest (CSV.set_inQuotes s false)) as H1.
                cbn [CSV.records CSV.set_inQuotes] in H1. lia.
        * pose proof (Hrest (CSV.add_char s char)) as H1.
          cbn [CSV.records CSV.add_char] in H1. lia.
      + destruct (Ascii.eqb char CSV.quote) eqn:Eq.
        { pose proof (Hrest (CSV.set_inQuotes s true)) as H1.
          cbn [CSV.records CSV.set_inQuotes] in H1. lia. }
        destruct (Ascii.eqb char CSV.comma) eqn:Ec.
        { pose proof (Hrest (CSV.end_field s)) as H1.
          cbn [CSV.records CSV.end_field] in H1. lia. }
        destruct (Ascii.eqb char CSV.CR) eqn:Er.
        * rewrite (Hone (or_introl eq_refl)). pose proof (Hend s).
          destruct rest as [|nextChar rest'] eqn:Erest.
          -- pose proof (Hrest (CSV.end_record s)) as H1. lia.
          -- destruct (Ascii.eqb nextChar CSV.LF).
             ++ pose proof (Hrest' _ _ (CSV.end_record s) eq_refl) as H1.
                pose proof (Hbreaks _ _ eq_refl). lia.
             ++ pose proof (Hrest (CSV.end_record s)) as H1. lia.
        * destruct (Ascii.eqb char CSV.LF) eqn:El.
          -- rewrite (Hone (or_intror eq_refl)). pose proof (Hend s).
             pose proof (Hrest (CSV.end_record s)) as H1. lia.
          -- pose proof (Hrest (CSV.add_char s char)) as H1.
             cbn [CSV.records CSV.add_char] in H1. lia. }
  apply (H (String.length text)). lia.
Qed.

(** X17. parseCSVWithMultiline returns at most one record more than the
    text has line breaks (CR or LF code units): a text without a line break
    yields at most one record, and line breaks inside quotes or after a
    blank line add none. *)
Theorem parsed_record_count (text : string) :
  (length (CSV.parseCSVWithMultiline text) <= CSV.line_breaks text + 1)%nat.
Proof.
  unfold CSV.parseCSVWithMultiline. cbv zeta.
  pose proof (parse_loop_record_count text
                {| CSV.records := []; CSV.currentRecord := [];
                   CSV.currentField := ""; CSV.inQuotes := false |}) as H.
  simpl in H.
  destruct (_ || _); [|lia].
  unfold CSV.end_record. simpl.
  destruct (CSV.has_first_field _); [rewrite length_app; simpl; lia | lia].
Qed.

Lemma string_append_nil_r (s : string) : (s ++ "")%string = s.
Proof.
  induction s as [|c s IH]; [reflexivity|].
  change (String c s ++ "")%string with (String c (s ++ "")%string).
  f_equal. exact IH.
Qed.

Lemma string_append_assoc (s t u : string) :
  ((s ++ t) ++ u)%string = (s ++ (t ++ u))%string.
Proof.
  induction s as [|c s IH]; [reflexivity|].
  change ((String c s ++ t) ++ u)%string
    with (String c ((s ++ t) ++ u)%string).
  change (String c s ++ (t ++ u))%string
    with (String c (s ++ (t ++ u))%string).
  f_equal. exact IH.
Qed.

Lemma parse_loop_quoted (s rest : string) (st : CSV.ParseState) :
  CSV.inQuotes st = true ->
  CSV.has_char CSV.quote s = false ->
  CSV.parse_loop (s ++ rest) st
  = CSV.parse_loop rest
      {| CSV.records := CSV.records st;
         CSV.currentRecord := CSV.currentRecord st;
         CSV.currentField := CSV.currentField st ++ s;
         CSV.inQuotes := true |}.
Proof.
  revert st. induction s as [|c s IH]; intros st Hq Hs.
  - rewrite string_append_nil_r. destruct st as [r cr cf q].
    simpl in Hq. subst q. reflexivity.
  - simpl in Hs. apply orb_false_iff in Hs. destruct Hs as [Hc Hs].
    change (String c s ++ rest)%string with (String c (s ++ rest)%string).
    cbn [CSV.parse_loop]. rewrite Hq.
    assert (E : Ascii.eqb c CSV.quote = false)
      by (rewrite Ascii.eqb_sym; exact Hc).
    rewrite E, IH by (simpl; auto). simpl.
    f_equal. f_equal.
    rewrite string_append_assoc. reflexivity.
Qed.

Lemma trim_empty_first_field (s : string) :
  CSV.has_first_field [CSV.trim s] = negb (String.eqb (CSV.trim s) "").
Proof. reflexivity. Qed.

(** X18. A text that is one quoted field, with no quote character inside, is
    parsed as one record of one field whatever commas and line breaks the
    field holds; the field is trimmed like an unquoted one, and a field that
    is empty after trimming gives no record at all. *)
Theorem quoted_field_is_one_field (s : string) :
  CSV.has_char CSV.quote s = false ->
  CSV.parseCSVWithMultiline (String CSV.quote (s ++ String CSV.quote ""))
  = if String.eqb (CSV.trim s) "" then [] else [[CSV.trim s]].
Proof.
  intros Hs. unfold CSV.parseCSVWithMultiline.
  set (init := {| CSV.records := []; CSV.currentRecord := [];
                  CSV.currentField := ""; CSV.inQuotes := false |}).
  assert (E : CSV.parse_loop (String CSV.quote (s ++ String CSV.quote "")) init
              = {| CSV.records := []; CSV.currentRecord := [];
                   CSV.currentField := s; CSV.inQuotes := false |}).
  { change (CSV.parse_loop (String CSV.quote (s ++ String CSV.quote "")) init)
      with (CSV.parse_loop (s ++ String CSV.quote "")
              (CSV.set_inQuotes init true)).
    rewrite parse_loop_quoted by (reflexivity || exact Hs).
    reflexivity. }
  rewrite E. cbn [CSV.currentField CSV.currentRecord CSV.records length].
  destruct s as [|c s].
  - reflexivity.
  - cbn [String.eqb negb orb]. unfold CSV.end_record.
    cbn [CSV.currentField CSV.currentRecord CSV.records app].
    rewrite trim_empty_first_field.
    destruct (String.eqb (CSV.trim (String c s)) ""); reflexivity.
Qed.


(** ** Concrete runs of the further properties *)

Lemma no_border_stop_without_crossing_witness :
  stateBorderCrossings Cases.texas = []
  /\ exists final trace,
       simulate (Scenarios.route 600) Cases.texas 150 7 100
       = Some (final, trace)
       /\ BorderStop ∉ trace.
Proof.
  destruct (no_border_stop_without_crossing (Scenarios.route 600) Cases.texas
              150 7 100) as (H1 & _ & H2).
  - left. apply Forall_forall. repeat constructor.
  - split; assumption.
Defined.

Lemma reserve_discard_unreachable_witness :
  exists final trace,
    simulate (Scenarios.route 1400) Scenarios.long_haul 150 7 100
    = Some (final, trace)
    /\ (ReserveDiscard ∉ trace)
    /\ (length trace <= length (stops final) + 1)%nat.
Proof.
  destruct (reserve_discard_unreachable (Scenarios.route 1400)
              Scenarios.long_haul 150 7 100) as [_ H];
    [reflexivity | exact H].
Defined.

Lemma fill_amounts_witness :
  exists r,
    calculateFuelStops (Scenarios.route 1400) Scenarios.long_haul 150 7 100
    = Some r
    /\ Forall (fun stop => 0 <= gallonsToAdd stop
                           /\ fillAmount stop <= Math_round 150)
              (result_stops r)
    /\ Forall (fun stop => fillAmount stop = Math_round 150)
              (removelast (result_stops r)).
Proof.
  apply (fill_amounts (Scenarios.route 1400) Scenarios.long_haul 150 7 100);
    [reflexivity | discriminate | discriminate].
Defined.

Lemma destination_reserve_witness :
  calculateFuelStops (Scenarios.route 175) [] 100 7 100
  = Some {| result_stops := stops (initial_state 100);
            finalFuel :=
              fuelAtDestination (Scenarios.route 175) 7 (initial_state 100) |}
  /\ targetFuelAtDestination 100
     <= fuelAtDestination (Scenarios.route 175) 7 (initial_state 100).
Proof.
  apply (destination_reserve (Scenarios.route 175) [] 100 7 100
           (initial_state 100) [DestinationReached]);
    vm_compute; reflexivity.
Defined.

Lemma trip_summary_bounds_witness :
  exists r,
    calculateFuelStops (Scenarios.route 1400) Scenarios.long_haul 150 7 100
    = Some r
    /\ targetFuelAtDestination 150 <= Math_min 150 (finalFuel r)
    /\ Math_min 150 (finalFuel r) <= 150
    /\ Math_min 150 (finalFuel r) - 0.05
       <= summary_finalFuel (tripSummary 150 r)
    /\ summary_finalFuel (tripSummary 150 r)
       <= Math_min 150 (finalFuel r) + 0.05
    /\ 0 <= totalSavings (tripSummary 150 r).
Proof.
  apply (trip_summary_bounds (Scenarios.route 1400) Scenarios.long_haul
           150 7 100);
    [reflexivity | discriminate].
Defined.

Lemma failure_halt_shown_as_success_witness :
  exists r,
    calculateFuelStops (Scenarios.route 700) [] 100 7 10 = Some r
    /\ fuelAtDestination (Scenarios.route 700) 7 (initial_state 10) < 0
    /\ renderFuelStopCards (result_stops r) = EnoughFuelMessage
    /\ summary_finalFuel (tripSummary 100 r)
       = toFixed1 (Math_min 100 (targetFuelAtDestination 100)).
Proof.
  apply (failure_halt_shown_as_success (Scenarios.route 700) [] 100 7 10
           (initial_state 10) [NoReachableStation]);
    vm_compute; reflexivity.
Defined.

Lemma near_miss_fill_witness :
  exists (s : Station) stop,
    stops (snd (loop_body (Scenarios.route 400) Cases.texas 150 7
                  (initial_state 110)))
    = stops (initial_state 110) ++ [stop]
    /\ stop_station stop = s
    /\ currentPosition (initial_state 110) <= distanceFromStart s
    /\ 0 < gallonsToAdd stop
    /\ (fillAmount stop = Math_round 150
        \/ (fillAmount stop <= 150
            /\ targetFuelAtDestination 150 + 5
               <= fillAmount stop
                  - (totalDistance (Scenarios.route 400) - distanceFromStart s)
                    / 7)).
Proof.
  apply (near_miss_fill (Scenarios.route 400) Cases.texas 150 7
           (initial_state 110)).
  vm_compute. reflexivity.
Defined.

Lemma stop_price_category_witness :
  stop_price (createStopFromStation 1 Scenarios.nevada_exit 50 150 100) = 3.20
  /\ tier Scenarios.nevada_exit
     = Some (priceCategory
               (createStopFromStation 1 Scenarios.nevada_exit 50 150 100)).
Proof.
  apply (proj1 (stop_price_category 1 Scenarios.nevada_exit 50 150 100) 3.20);
    [reflexivity | discriminate].
Defined.

Lemma corridor_annotation_bounds_witness :
  exists s : Station,
    head (findStationsAlongRoute Scenarios.grid_distance
            [Scenarios.off_route; Scenarios.on_route; Scenarios.too_far]
            Scenarios.short_route) = Some s
    /\ data s ∈ [Scenarios.off_route; Scenarios.on_route; Scenarios.too_far]
    /\ (routeIndex s < length (coordinates Scenarios.short_route))%nat
    /\ distanceFromRoute s <= 3
    /\ 0 <= distanceFromStart s
    /\ distanceFromStart s <= distance Scenarios.short_route.
Proof.
  eexists. split; [vm_compute; reflexivity|].
  apply (corridor_annotation_bounds Scenarios.grid_distance
           [Scenarios.off_route; Scenarios.on_route; Scenarios.too_far]
           Scenarios.short_route).
  - simpl. lia.
  - discriminate.
  - apply head_Some_elem_of. vm_compute. reflexivity.
Defined.

Lemma corridor_keeps_ids_distinct_witness :
  NoDup (map (fun s : Station => id s)
           (findStationsAlongRoute Scenarios.grid_distance
              [Scenarios.off_route; Scenarios.on_route; Scenarios.too_far]
              Scenarios.short_route)).
Proof.
  apply (corridor_keeps_ids_distinct Scenarios.grid_distance
           [Scenarios.off_route; Scenarios.on_route; Scenarios.too_far]
           Scenarios.short_route).
  apply (bool_decide_unpack _). vm_compute. exact I.
Defined.

Lemma regional_price_range_witness :
  exists p,
    Prices.getRegionalPrice "CA" = Some p
    /\ 3.10 <= p /\ p <= 4.85
    /\ price_leb (PriceNum p) CONFIG.priceThresholds_excellent = false
    /\ (Prices.REGIONAL_DIESEL_PRICES !! "CA"%string = None -> p = 3.50)
    /\ ("CA"%string ∈ CONFIG.fullTankStates ->
        price_gtb (PriceNum p) CONFIG.priceThresholds_fair = true).
Proof.
  apply (regional_price_range "CA").
  apply (bool_decide_unpack _). vm_compute. exact I.
Defined.

Lemma estimated_price_range_witness :
  exists p,
    Prices.estimateFuelPrice true (fst Cases.reno) (snd Cases.reno)
      "Flying J" "" = Some p
    /\ 3.25 <= p /\ p <= 4.30
    /\ price_leb (PriceNum p) CONFIG.priceThresholds_excellent = false
    /\ price_gtb (PriceNum p) CONFIG.priceThresholds_fair = true
    /\ p == 4.25.
Proof.
  destruct (estimated_price_range true (fst Cases.reno) (snd Cases.reno)
              "Flying J" "") as (p & Hp & Hlo & Hhi & Hex & Hfair & Hwest & _).
  - right. reflexivity.
  - exists p. split; [exact Hp|]. split; [exact Hlo|]. split; [exact Hhi|].
    split; [exact Hex|]. split; [apply Hfair; reflexivity|].
    rewrite Hwest by reflexivity. reflexivity.
Defined.

Lemma quoted_field_is_one_field_witness :
  CSV.parseCSVWithMultiline
    (String CSV.quote
       (("12 Main St," ++ String CSV.LF "Reno, NV") ++ String CSV.quote ""))
  = [[("12 Main St," ++ String CSV.LF "Reno, NV")%string]].
Proof.
  apply (quoted_field_is_one_field
           ("12 Main St," ++ String CSV.LF "Reno, NV")).
  reflexivity.
Defined.

